(** * BlackRoad search engine: a shallow embedding of [src/search_engine.py]

    The development follows the Python source function by function.

    - Python [str] values are [string]s of ASCII characters; text outside
      ASCII is outside the model, and the statements about the tokenizer
      say so ([is_ascii]).
    - Python [int]s are [Z] (counters) or [nat] (lengths and counts).
    - Python [float]s are idealised as real numbers ([R]): rounding,
      infinities and NaN are not modelled.
    - A Python [dict] is an insertion-ordered association list ([pydict]).
    - The SQLite tables are finite maps keyed by their primary key.  The
      rows that [search] selects come in the order of the primary key
      index, by ascending [doc_id]; aggregates ([COUNT], [SUM]) do not
      depend on an order.
    - [datetime.utcnow()] is an argument [now] of the operations that read
      the clock; the wall-clock field [processing_time_ms] of a search
      result is left out. *)

From stdpp Require Import gmap strings list fin_maps pretty sorting.
From Stdlib Require Import Ascii Reals Lra.

Set Warnings "-register-all".

Open Scope string_scope.

(** ** Exceptions and results *)

Inductive exception :=
| ValueError (msg : string)
| IntegrityError (msg : string)
| KeyError (key : string).

Inductive result (A : Type) :=
| Ok (a : A)
| Raise (e : exception).
Arguments Ok {A} a.
Arguments Raise {A} e.

Global Instance result_ret : MRet result := λ A, Ok.
Global Instance result_bind : MBind result :=
  λ A B f m, match m with Ok a => f a | Raise e => Raise e end.

Definition raised {A} (m : result A) : Prop :=
  match m with Ok _ => False | Raise _ => True end.

(** ** Python dictionaries, in insertion order *)

Module PyDict.

Abbreviation pydict V := (list (string * V)).

Section ops.
Context {V : Type}.

(** [d.get(k)] *)
Fixpoint get (k : string) (d : pydict V) : option V :=
  match d with
  | [] => None
  | (k', v) :: d' => if decide (k' = k) then Some v else get k d'
  end.


(** [d[k] = v]: an existing key keeps its place, a new one goes last. *)
Fixpoint set (k : string) (v : V) (d : pydict V) : pydict V :=
  match d with
  | [] => [(k, v)]
  | (k', v') :: d' =>
      if decide (k' = k) then (k, v) :: d' else (k', v') :: set k v d'
  end.

(** [d.update(other)] *)
Definition update (d other : pydict V) : pydict V :=
  fold_left (λ acc kv, set kv.1 kv.2 acc) other d.

Definition keys (d : pydict V) : list string := d.*1.
Definition values (d : pydict V) : list V := d.*2.
End ops.

End PyDict.
Import PyDict.

(** ** Document values (what [json.load] produces, without floats and
    nested objects) *)

Inductive value :=
| VNone
| VBool (b : bool)
| VInt (n : Z)
| VStr (s : string)
| VList (l : list value).

Abbreviation document := (pydict value).

(** *** [repr] and [str] *)

Definition dquote : ascii := ascii_of_nat 34.
Definition squote : ascii := ascii_of_nat 39.
Definition backslash : ascii := ascii_of_nat 92.

Fixpoint has_char (c : ascii) (s : string) : bool :=
  match s with
  | EmptyString => false
  | String c' s' => if decide (c' = c) then true else has_char c s'
  end.

Definition hex_digit (n : nat) : ascii :=
  if decide (n < 10) then ascii_of_nat (48 + n) else ascii_of_nat (87 + n).

(** One character of [repr(s)], for the chosen quote character. *)
Definition repr_char (quote c : ascii) : string :=
  let n := nat_of_ascii c in
  if decide (c = quote ∨ c = backslash) then String backslash (String c "")
  else if decide (n = 9) then String backslash "t"
  else if decide (n = 10) then String backslash "n"
  else if decide (n = 13) then String backslash "r"
  else if decide (n < 32 ∨ n = 127) then
    String backslash
      (String "x" (String (hex_digit (n / 16)) (String (hex_digit (n mod 16)) "")))
  else String c "".

Fixpoint repr_chars (quote : ascii) (s : string) : string :=
  match s with
  | EmptyString => ""
  | String c s' => repr_char quote c ++ repr_chars quote s'
  end.

(** [repr] of a [str]: single quotes, unless the text has a single quote
    and no double quote. *)
Definition repr_str (s : string) : string :=
  let quote :=
    if has_char squote s && negb (has_char dquote s) then dquote else squote in
  String quote (repr_chars quote s ++ String quote "").

Fixpoint join (sep : string) (l : list string) : string :=
  match l with
  | [] => ""
  | [x] => x
  | x :: l' => x ++ sep ++ join sep l'
  end.

Fixpoint py_repr (v : value) : string :=
  match v with
  | VNone => "None"
  | VBool true => "True"
  | VBool false => "False"
  | VInt n => pretty n
  | VStr s => repr_str s
  | VList l => "[" ++ join ", " (map py_repr l) ++ "]"
  end.

(** [str(v)] *)
Definition py_str (v : value) : string :=
  match v with
  | VStr s => s
  | _ => py_repr v
  end.

(** *** [==] on values: [bool] is a subclass of [int], so [True == 1];
    a [str] equals only the same [str]; lists compare element by element. *)

Definition int_of_bool (b : bool) : Z := if b then 1 else 0.

Fixpoint py_eq (v w : value) : bool :=
  match v, w with
  | VNone, VNone => true
  | VBool a, VBool b => bool_decide (a = b)
  | VBool a, VInt n => bool_decide (int_of_bool a = n)
  | VInt n, VBool b => bool_decide (n = int_of_bool b)
  | VInt n, VInt m => bool_decide (n = m)
  | VStr s, VStr t => bool_decide (s = t)
  | VList l, VList m =>
      (fix eq_list (l : list value) (m : list value) : bool :=
         match l, m with
         | [], [] => true
         | x :: l', y :: m' => py_eq x y && eq_list l' m'
         | _, _ => false
         end) l m
  | _, _ => false
  end.

(** [v in l] for a list [l] *)
Definition py_in (v : value) (l : list value) : bool :=
  existsb (py_eq v) l.

(** ** Tokenizer *)

Definition is_upper (c : ascii) : bool :=
  let n := nat_of_ascii c in bool_decide (65 ≤ n ≤ 90)%nat.

(** [\w] on ASCII text: letters, digits and the underscore. *)
Definition is_word_char (c : ascii) : bool :=
  let n := nat_of_ascii c in
  bool_decide (48 ≤ n ≤ 57)%nat || bool_decide (65 ≤ n ≤ 90)%nat
  || bool_decide (97 ≤ n ≤ 122)%nat || bool_decide (n = 95).

Definition lower_char (c : ascii) : ascii :=
  if is_upper c then ascii_of_nat (nat_of_ascii c + 32) else c.

(** [text.lower()] *)
Fixpoint lower (s : string) : string :=
  match s with
  | EmptyString => ""
  | String c s' => String (lower_char c) (lower s')
  end.

Definition flush (cur : string) : list string :=
  if decide (cur = "") then [] else [cur].

(** [re.findall(r'\w+', s)]: the maximal runs of word characters, with
    [cur] the run being read. *)
Fixpoint findall_words (cur : string) (s : string) : list string :=
  match s with
  | EmptyString => flush cur
  | String c s' =>
      if is_word_char c then findall_words (cur ++ String c "") s'
      else flush cur ++ findall_words "" s'
  end.

Definition stopwords : gset string :=
  list_to_set
    ["the"; "a"; "an"; "and"; "or"; "but"; "in"; "on"; "at"; "to"; "for"].

Definition keep_token (t : string) : Prop :=
  (t ∉ stopwords) ∧ (2 < String.length t)%nat.

Global Instance keep_token_dec t : Decision (keep_token t).
Proof. unfold keep_token. apply _. Defined.

Definition _tokenize (text : string) : list string :=
  filter keep_token (findall_words "" (lower text)).

(** ** Index metadata and the database *)

Definition datetime := Z.
Bind Scope Z_scope with datetime.

Record Index := mkIndex {
  uid : string;
  name : string;
  primary_key : string;
  created_at : datetime;
  updated_at : datetime;
  total_documents : Z;
  facets : list string;
  ranking_rules : list string;
  searchable_attrs : list string;
  filterable_attrs : list string;
  sortable_attrs : list string
}.

Definition default_ranking_rules : list string :=
  ["typo"; "words"; "proximity"; "attribute"; "exactness"].

Definition with_stats (total : Z) (now : datetime) (i : Index) : Index :=
  mkIndex (uid i) (name i) (primary_key i) (created_at i) now total
          (facets i) (ranking_rules i) (searchable_attrs i)
          (filterable_attrs i) (sortable_attrs i).

Definition with_searchable_attrs (attrs : list string) (i : Index) : Index :=
  mkIndex (uid i) (name i) (primary_key i) (created_at i) (updated_at i)
          (total_documents i) (facets i) (ranking_rules i) attrs
          (filterable_attrs i) (sortable_attrs i).

Definition with_filterable_attrs (attrs : list string) (i : Index) : Index :=
  mkIndex (uid i) (name i) (primary_key i) (created_at i) (updated_at i)
          (total_documents i) (facets i) (ranking_rules i)
          (searchable_attrs i) attrs (sortable_attrs i).

Definition with_sortable_attrs (attrs : list string) (i : Index) : Index :=
  mkIndex (uid i) (name i) (primary_key i) (created_at i) (updated_at i)
          (total_documents i) (facets i) (ranking_rules i)
          (searchable_attrs i) (filterable_attrs i) attrs.

(** The tables [indexes], [index_documents] and [term_index], each keyed
    by its primary key.  The table [field_stats] is created by the source
    and never written or read; it is left out.  A stored document is the
    document itself: [json.loads (json.dumps doc) = doc] on these values. *)
Record Database := mkDatabase {
  indexes_table : gmap string Index;
  index_documents : gmap (string * string) document;
  term_index : gmap (string * string * string * string) (list nat)
}.

Definition empty_database : Database := mkDatabase ∅ ∅ ∅.

(** [with sqlite3.connect(path) as conn: body].  The statements of [body]
    run in one transaction: leaving the block normally commits it, leaving
    it with an exception rolls it back. *)
Definition transaction {A} (db : Database)
    (body : Database → result (Database * A)) : Database * result A :=
  match body db with
  | Ok (db', a) => (db', Ok a)
  | Raise e => (db, Raise e)
  end.

(** The engine: the database file and the in-memory registry
    [self.indexes].  [k1] and [b] are the constants below. *)
Record SearchEngine := mkSearchEngine {
  db : Database;
  indexes : gmap string Index
}.

Definition new_engine : SearchEngine := mkSearchEngine empty_database ∅.

Definition not_found (index_uid : string) : exception :=
  ValueError ("Index " ++ index_uid ++ " not found").

Definition missing_primary_key (primary_key : string) : exception :=
  ValueError ("Document missing primary key: " ++ primary_key).

Definition document_not_found (doc_id : string) : exception :=
  ValueError ("Document " ++ doc_id ++ " not found").

(** ** Index management *)

Definition name_taken (n : string) (t : gmap string Index) : Prop :=
  Exists (λ row, name row.2 = n) (map_to_list t).

Global Instance name_taken_dec n t : Decision (name_taken n t).
Proof. unfold name_taken. apply _. Defined.

(** [INSERT INTO indexes]: [uid] is the primary key and [name] is UNIQUE. *)
Definition insert_index (i : Index) (conn : Database) : result Database :=
  if decide (is_Some (indexes_table conn !! uid i)) then
    Raise (IntegrityError "UNIQUE constraint failed: indexes.uid")
  else if decide (name_taken (name i) (indexes_table conn)) then
    Raise (IntegrityError "UNIQUE constraint failed: indexes.name")
  else
    Ok (mkDatabase (<[uid i := i]> (indexes_table conn))
                   (index_documents conn) (term_index conn)).

Definition create_index (self : SearchEngine) (now : datetime)
    (uid primary_key : string) (name : option string)
    : SearchEngine * result Index :=
  if decide (is_Some (indexes self !! uid)) then
    (self, Raise (ValueError ("Index " ++ uid ++ " already exists")))
  else
    let name :=
      match name with
      | Some n => if decide (n = "") then uid else n
      | None => uid
      end in
    let index :=
      mkIndex uid name primary_key now now 0 [] default_ranking_rules [] [] [] in
    match transaction (db self)
            (λ conn, conn' ← insert_index index conn; Ok (conn', ())) with
    | (db', Ok _) =>
        (mkSearchEngine db' (<[uid := index]> (indexes self)), Ok index)
    | (db', Raise e) => (mkSearchEngine db' (indexes self), Raise e)
    end.

(** ** Ingestion *)

(** [INSERT OR REPLACE INTO index_documents] *)
Definition store_document (index_uid doc_id : string) (doc : document)
    (conn : Database) : Database :=
  mkDatabase (indexes_table conn)
             (<[(index_uid, doc_id) := doc]> (index_documents conn))
             (term_index conn).

(** [INSERT OR REPLACE INTO term_index] *)
Definition store_posting (index_uid doc_id field : string)
    (positions : list nat) (conn : Database) (term : string) : Database :=
  mkDatabase (indexes_table conn) (index_documents conn)
             (<[(index_uid, term, doc_id, field) := positions]> (term_index conn)).

(** The body of [for field, value in doc.items()]. *)
Definition index_field (index_uid doc_id primary_key : string)
    (conn : Database) (fv : string * value) : Database :=
  if decide (fv.1 = primary_key) then conn
  else
    let terms := _tokenize (py_str fv.2) in
    let positions := seq 0 (length terms) in
    fold_left (store_posting index_uid doc_id fv.1 positions)
              (elements (list_to_set terms : gset string)) conn.

(** [str(doc.get(primary_key, ""))] *)
Definition doc_id_of (primary_key : string) (doc : document) : string :=
  py_str (default (VStr "") (get primary_key doc)).

(** The body of [for doc in documents]. *)
Definition add_document (index_uid primary_key : string)
    (conn : Database) (doc : document) : result Database :=
  let doc_id := doc_id_of primary_key doc in
  if decide (doc_id = "") then Raise (missing_primary_key primary_key)
  else
    Ok (fold_left (index_field index_uid doc_id primary_key) doc
                  (store_document index_uid doc_id doc conn)).

Fixpoint add_each (index_uid primary_key : string)
    (documents : list document) (conn : Database) : result Database :=
  match documents with
  | [] => Ok conn
  | doc :: rest =>
      conn' ← add_document index_uid primary_key conn doc;
      add_each index_uid primary_key rest conn'
  end.

(** [UPDATE indexes SET total_documents = ?, updated_at = ? WHERE uid = ?] *)
Definition update_stats (index_uid : string) (total : Z) (now : datetime)
    (conn : Database) : Database :=
  mkDatabase (alter (with_stats total now) index_uid (indexes_table conn))
             (index_documents conn) (term_index conn).

Definition add_documents (self : SearchEngine) (now : datetime)
    (index_uid : string) (documents : list document)
    : SearchEngine * result () :=
  match indexes self !! index_uid with
  | None => (self, Raise (not_found index_uid))
  | Some index =>
      let body conn :=
        conn' ← add_each index_uid (primary_key index) documents conn;
        let doc_count := Z.of_nat (length documents) in
        let index' := with_stats (total_documents index + doc_count) now index in
        Ok (update_stats index_uid (total_documents index') now conn', index') in
      match transaction (db self) body with
      | (db', Ok index') =>
          (mkSearchEngine db' (<[index_uid := index']> (indexes self)), Ok ())
      | (db', Raise e) => (mkSearchEngine db' (indexes self), Raise e)
      end
  end.

Definition update_document (self : SearchEngine) (now : datetime)
    (index_uid doc_id : string) (partial_doc : document)
    : SearchEngine * result () :=
  if decide (is_Some (indexes self !! index_uid)) then
    match index_documents (db self) !! (index_uid, doc_id) with
    | None => (self, Raise (document_not_found doc_id))
    | Some doc => add_documents self now index_uid [update doc partial_doc]
    end
  else (self, Raise (not_found index_uid)).

(** [DELETE FROM term_index WHERE index_uid = ? AND doc_id = ?] *)
Definition delete_postings (index_uid doc_id : string)
    (t : gmap (string * string * string * string) (list nat))
    : gmap (string * string * string * string) (list nat) :=
  filter (λ row, ¬ (row.1.1.1.1 = index_uid ∧ row.1.1.2 = doc_id)) t.

Definition delete_document (self : SearchEngine) (now : datetime)
    (index_uid doc_id : string) : SearchEngine * result () :=
  match indexes self !! index_uid with
  | None => (self, Raise (not_found index_uid))
  | Some index =>
      let conn := db self in
      let db' :=
        mkDatabase (indexes_table conn)
                   (delete (index_uid, doc_id) (index_documents conn))
                   (delete_postings index_uid doc_id (term_index conn)) in
      let index' :=
        with_stats (Z.max 0 (total_documents index - 1)) now index in
      (mkSearchEngine db' (<[index_uid := index']> (indexes self)), Ok ())
  end.

Definition get_document (self : SearchEngine) (index_uid doc_id : string)
    : result (option document) :=
  if decide (is_Some (indexes self !! index_uid)) then
    Ok (index_documents (db self) !! (index_uid, doc_id))
  else Raise (not_found index_uid).

(** ** Field configuration *)

(** [UPDATE indexes SET <column> = ? WHERE uid = ?] *)
Definition update_row (f : Index → Index) (index_uid : string)
    (conn : Database) : Database :=
  mkDatabase (alter f index_uid (indexes_table conn))
             (index_documents conn) (term_index conn).

Definition set_attrs (f : list string → Index → Index) (self : SearchEngine)
    (index_uid : string) (attrs : list string) : SearchEngine * result () :=
  match indexes self !! index_uid with
  | None => (self, Raise (not_found index_uid))
  | Some index =>
      (mkSearchEngine (update_row (f attrs) index_uid (db self))
                      (<[index_uid := f attrs index]> (indexes self)), Ok ())
  end.

Definition set_searchable_attrs := set_attrs with_searchable_attrs.
Definition set_filterable_attrs := set_attrs with_filterable_attrs.
Definition set_sortable_attrs := set_attrs with_sortable_attrs.

(** ** BM25 scoring *)

Definition k1 : R := 3 / 2.
Definition b : R := 3 / 4.

Definition field_weights : pydict R :=
  [("title", 3%R); ("description", 2%R); ("body", 1%R)].

(** [math.log], which raises [ValueError] outside its domain. *)
Definition math_log (x : R) : result R :=
  if Rlt_dec 0 x then Ok (ln x) else Raise (ValueError "math domain error").

(** [SELECT COUNT(DISTINCT doc_id) FROM term_index
     WHERE index_uid = ? AND term = ?] *)
Definition document_frequency (conn : Database) (index_uid term : string)
    : nat :=
  size (list_to_set
          ((filter (λ row, row.1.1.1.1 = index_uid ∧ row.1.1.1.2 = term)
                   (map_to_list (term_index conn))).*1.*1.*2) : gset string).

(** [terms_in_field.count(term)] *)
Definition count_term (term : string) (terms : list string) : nat :=
  length (filter (λ t, t = term) terms).

(** The body of [for field, value in doc.items()] in [_bm25_score]. *)
Definition score_field (primary_key term : string) (idf : R) (score : R)
    (fv : string * value) : R :=
  if decide (fv.1 = primary_key) then score
  else
    let terms_in_field := _tokenize (py_str fv.2) in
    let tf := count_term term terms_in_field in
    if decide (0 < tf)%nat then
      let field_len := length terms_in_field in
      let weight := default 1%R (get fv.1 field_weights) in
      let bm25 :=
        ((k1 + 1) * INR tf / (INR tf + k1 * (1 - b + b * INR field_len)))%R in
      (score + weight * idf * bm25)%R
    else score.

(** The body of [for term in terms] in [_bm25_score]. *)
Definition score_term (self : SearchEngine) (index_uid : string)
    (doc : document) (score : R) (term : string) : result R :=
  let df := document_frequency (db self) index_uid term in
  match indexes self !! index_uid with
  | None => Raise (KeyError index_uid)
  | Some index =>
      let n_docs :=
        if decide (total_documents index = 0%Z) then 1%Z
        else total_documents index in
      idf ← math_log (IZR n_docs / IZR (Z.max 1 (Z.of_nat df)));
      Ok (fold_left (score_field (primary_key index) term idf) doc score)
  end.

Fixpoint score_terms (self : SearchEngine) (index_uid : string)
    (doc : document) (terms : list string) (score : R) : result R :=
  match terms with
  | [] => Ok score
  | term :: rest =>
      score' ← score_term self index_uid doc score term;
      score_terms self index_uid doc rest score'
  end.

Definition _bm25_score (self : SearchEngine) (index_uid : string)
    (terms : list string) (doc_id : string) (doc : document) : result R :=
  score_terms self index_uid doc terms 0%R.

(** ** Filters and facets *)

Fixpoint _matches_filters (doc : document) (filters : pydict value) : bool :=
  match filters with
  | [] => true
  | (field, value) :: rest =>
      match get field doc with
      | None => false
      | Some v =>
          match value with
          | VList l =>
              if negb (py_in v l) then false else _matches_filters doc rest
          | _ =>
              if negb (py_eq v value) then false
              else _matches_filters doc rest
          end
      end
  end.

(** [documents[doc_id]] *)
Definition getitem {V} (d : pydict V) (k : string) : result V :=
  match get k d with
  | Some v => Ok v
  | None => Raise (KeyError k)
  end.

Fixpoint apply_filters_loop (scores : pydict R) (documents : pydict document)
    (filters : pydict value) (filtered : pydict R) : result (pydict R) :=
  match scores with
  | [] => Ok filtered
  | (doc_id, score) :: rest =>
      doc ← getitem documents doc_id;
      apply_filters_loop rest documents filters
        (if _matches_filters doc filters then set doc_id score filtered
         else filtered)
  end.

Definition _apply_filters (scores : pydict R) (documents : pydict document)
    (filters : pydict value) : result (pydict R) :=
  apply_filters_loop scores documents filters [].

(** The body of [for doc in documents.values()] in [_compute_facets];
    [facet_values] is a [defaultdict(int)]. *)
Definition count_facet (facet : string) (facet_values : pydict nat)
    (doc : document) : pydict nat :=
  match get facet doc with
  | Some v =>
      let key := py_str v in
      set key (default 0%nat (get key facet_values) + 1)%nat facet_values
  | None => facet_values
  end.

(** The body of [for facet in facets] in [_compute_facets]. *)
Definition facet_step (documents : pydict document)
    (result : pydict (pydict nat)) (facet : string) : pydict (pydict nat) :=
  set facet (fold_left (count_facet facet) (values documents) []) result.

Definition _compute_facets (documents : pydict document)
    (facets : list string) : pydict (pydict nat) :=
  fold_left (facet_step documents) facets [].

(** ** Search *)

Record SearchResult := mkSearchResult {
  index_uid : string;
  query : string;
  hits : list document;
  total : nat;
  facet_distribution : pydict (pydict nat)
}.

(** The order of two rows of [index_documents] of one index in the index
    of the primary key [(index_uid, doc_id)]: that of their [doc_id]s,
    compared character by character. *)
Definition doc_id_le (r1 r2 : string * document) : Prop := String.le r1.1 r2.1.

Global Instance doc_id_le_dec : RelDecision doc_id_le.
Proof. intros r1 r2. unfold doc_id_le. apply _. Defined.

(** [SELECT doc_id, document FROM index_documents WHERE index_uid = ?]:
    SQLite answers the query from the index of the primary key, so the
    rows come in ascending order of [doc_id]. *)
Definition select_documents (conn : Database) (index_uid : string)
    : list (string * document) :=
  merge_sort doc_id_le
    ((λ row, (row.1.2, row.2)) <$>
       filter (λ row, row.1.1 = index_uid)
              (map_to_list (index_documents conn))).

(** [{r[0]: json.loads(r[1]) for r in rows}] *)
Definition dict_of_rows (rows : list (string * document)) : pydict document :=
  fold_left (λ d r, set r.1 r.2 d) rows [].

Fixpoint score_documents (self : SearchEngine) (index_uid : string)
    (terms : list string) (documents : pydict document) (scores : pydict R)
    : result (pydict R) :=
  match documents with
  | [] => Ok scores
  | (doc_id, doc) :: rest =>
      score ← _bm25_score self index_uid terms doc_id doc;
      score_documents self index_uid terms rest
        (if Rlt_dec 0 score then set doc_id score scores else scores)
  end.

(** [sorted(scores.items(), key=lambda x: x[1], reverse=True)]: a stable
    sort, items of equal score keep their order. *)
Fixpoint insert_by_score (x : string * R) (l : list (string * R))
    : list (string * R) :=
  match l with
  | [] => [x]
  | y :: l' =>
      if Rlt_dec x.2 y.2 then y :: insert_by_score x l' else x :: y :: l'
  end.

Definition sorted_by_score (items : list (string * R)) : list (string * R) :=
  foldr insert_by_score [] items.

(** A slice bound, as Python normalises it for a sequence of length [len]. *)
Definition slice_index (len i : Z) : Z :=
  if decide (i < 0)%Z then Z.max 0 (i + len) else Z.min i len.

(** [l[start:stop]] *)
Definition py_slice {A} (l : list A) (start stop : Z) : list A :=
  let len := Z.of_nat (length l) in
  let lo := slice_index len start in
  let hi := slice_index len stop in
  take (Z.to_nat (hi - lo)) (drop (Z.to_nat lo) l).

(** [[documents[doc_id] for doc_id in hits_ids]] *)
Fixpoint getitems {V} (d : pydict V) (ks : list string) : result (list V) :=
  match ks with
  | [] => Ok []
  | k :: ks' => v ← getitem d k; vs ← getitems d ks'; Ok (v :: vs)
  end.

Definition search (self : SearchEngine) (index_uid query : string)
    (filters : option (pydict value)) (facets sort : option (list string))
    (limit offset : Z) : result SearchResult :=
  match indexes self !! index_uid with
  | None => Raise (not_found index_uid)
  | Some index =>
      let facets := default [] facets in
      let filters := default [] filters in
      let documents := dict_of_rows (select_documents (db self) index_uid) in
      let terms := _tokenize query in
      scores ← score_documents self index_uid terms documents [];
      scores ← match filters with
               | [] => Ok scores
               | _ => _apply_filters scores documents filters
               end;
      let sorted_docs := sorted_by_score scores in
      let total := length sorted_docs in
      let hits_ids := (py_slice sorted_docs offset (offset + limit)).*1 in
      hits ← getitems documents hits_ids;
      let facet_dist :=
        match facets with
        | [] => []
        | _ => _compute_facets documents facets
        end in
      Ok (mkSearchResult index_uid query hits total facet_dist)
  end.

(** ** Federated search *)

(** One query object of [multi_search]: a key is absent ([None]) or holds
    a value of the type [search] expects. *)
Record Query := mkQuery {
  q_index_uid : option string;
  q_query : option string;
  q_filters : option (pydict value);
  q_facets : option (list string);
  q_sort : option (list string);
  q_limit : option Z;
  q_offset : option Z
}.

(** The body of [for q in queries]: [q.get("index_uid")] is [None] for an
    absent key, which is in no registry. *)
Definition run_query (self : SearchEngine) (q : Query) : result SearchResult :=
  match q_index_uid q with
  | None => Raise (not_found "None")
  | Some index_uid =>
      search self index_uid (default "" (q_query q)) (q_filters q)
             (q_facets q) (q_sort q) (default 20%Z (q_limit q))
             (default 0%Z (q_offset q))
  end.

Fixpoint multi_search (self : SearchEngine) (queries : list Query)
    : result (list SearchResult) :=
  match queries with
  | [] => Ok []
  | q :: rest =>
      r ← run_query self q;
      rs ← multi_search self rest;
      Ok (r :: rs)
  end.

(** ** Statistics *)

(** [json.dumps] of the values of the model, with the default separators
    and [ensure_ascii]. *)
Definition json_escape_char (c : ascii) : string :=
  let n := nat_of_ascii c in
  if decide (c = backslash) then String backslash (String backslash "")
  else if decide (c = dquote) then String backslash (String dquote "")
  else if decide (n = 8) then String backslash "b"
  else if decide (n = 12) then String backslash "f"
  else if decide (n = 10) then String backslash "n"
  else if decide (n = 13) then String backslash "r"
  else if decide (n = 9) then String backslash "t"
  else if decide (n < 32 ∨ 126 < n)%nat then
    String backslash
      (String "u" (String "0" (String "0"
         (String (hex_digit (n / 16)) (String (hex_digit (n mod 16)) "")))))
  else String c "".

Fixpoint json_escape (s : string) : string :=
  match s with
  | EmptyString => ""
  | String c s' => json_escape_char c ++ json_escape s'
  end.

Definition json_string (s : string) : string :=
  String dquote (json_escape s ++ String dquote "").

Fixpoint json_value (v : value) : string :=
  match v with
  | VNone => "null"
  | VBool true => "true"
  | VBool false => "false"
  | VInt n => pretty n
  | VStr s => json_string s
  | VList l => "[" ++ join ", " (map json_value l) ++ "]"
  end.

(** [json.dumps(doc)], the text stored in [index_documents.document]. *)
Definition json_dumps (doc : document) : string :=
  "{" ++ join ", " (map (λ kv, json_string kv.1 ++ ": " ++ json_value kv.2) doc)
      ++ "}".

(** The dictionary [get_stats] returns: the statistics of one index or
    those of the engine. *)
Inductive Stats :=
| IndexStats (uid : string) (documents : Z) (index_size_bytes : nat)
| EngineStats (indexes : nat) (total_documents : Z).

(** [SELECT SUM(LENGTH(document)) FROM index_documents
     WHERE index_uid = ?], with 0 for no row. *)
Definition documents_size (conn : Database) (index_uid : string) : nat :=
  sum_list ((λ row, String.length (json_dumps row.2)) <$>
            filter (λ row, row.1.1 = index_uid)
                   (map_to_list (index_documents conn))).

(** [sum(i.total_documents for i in self.indexes.values())] *)
Definition sum_total_documents (registry : gmap string Index) : Z :=
  foldr Z.add 0%Z ((λ row, total_documents row.2) <$> map_to_list registry).

(** [if index_uid:] is false for [None] and for the empty string. *)
Definition get_stats (self : SearchEngine) (index_uid : option string)
    : result Stats :=
  match index_uid with
  | Some uid =>
      if decide (uid = "") then
        Ok (EngineStats (size (indexes self))
                        (sum_total_documents (indexes self)))
      else
        match indexes self !! uid with
        | None => Raise (not_found uid)
        | Some index =>
            Ok (IndexStats uid (total_documents index)
                           (documents_size (db self) uid))
        end
  | None =>
      Ok (EngineStats (size (indexes self))
                      (sum_total_documents (indexes self)))
  end.

(** ** Opening an engine on an existing database *)

(** [_load_indexes]: every row of [indexes] becomes an entry of the
    registry under its uid.  The JSON columns and the ISO timestamps are
    read back as they were written. *)
Definition _load_indexes (conn : Database) : gmap string Index :=
  list_to_map (map_to_list (indexes_table conn)).

(** [SearchEngine(db_path)] on a database that exists: [_init_db] creates
    no table anew. *)
Definition open_engine (conn : Database) : SearchEngine :=
  mkSearchEngine conn (_load_indexes conn).

(** * Vocabulary of the properties *)

(** The document has no usable primary key: the field is missing or its
    value stringifies to the empty string. *)
Definition invalid_document (primary_key : string) (doc : document) : Prop :=
  match get primary_key doc with
  | None => True
  | Some v => py_str v = ""
  end.

Global Instance invalid_document_dec pk doc : Decision (invalid_document pk doc).
Proof. unfold invalid_document. destruct (get pk doc); apply _. Defined.

(** The reading of C1 as the spec words it: after the call has raised,
    a document is stored under the id of every valid document that
    precedes the offending one in the batch. *)
Definition earlier_documents_kept : Prop :=
  ∀ self now index_uid index earlier bad rest doc,
    indexes self !! index_uid = Some index →
    Forall (λ d, ¬ invalid_document (primary_key index) d) earlier →
    invalid_document (primary_key index) bad →
    doc ∈ earlier →
    let self' :=
      (add_documents self now index_uid (earlier ++ bad :: rest)%list).1 in
    ∃ stored,
      get_document self' index_uid (doc_id_of (primary_key index) doc)
      = Ok (Some stored).

(** The (term, field) pairs that have a posting for [(index_uid, doc_id)]. *)
Definition postings_of (conn : Database) (index_uid doc_id : string)
    : list (string * string) :=
  (λ row, (row.1.1.1.2, row.1.2)) <$>
    filter (λ row, row.1.1.1.1 = index_uid ∧ row.1.1.2 = doc_id)
           (map_to_list (term_index conn)).

(** The (term, field) pairs of the tokenization of a document. *)
Definition expected_postings (primary_key : string) (doc : document)
    : list (string * string) :=
  flat_map
    (λ fv, if decide (fv.1 = primary_key) then []
           else (λ term, (term, fv.1)) <$> _tokenize (py_str fv.2))
    doc.

(** The number of documents stored for an index. *)
Definition stored_documents (self : SearchEngine) (index_uid : string) : nat :=
  length (select_documents (db self) index_uid).

(** The reading of C5 as the spec words it.  A setter is called after the
    last update of the index, so a bumped [updated_at] is a later one. *)
Definition setters_bump_updated_at : Prop :=
  ∀ self index_uid attrs index,
    indexes self !! index_uid = Some index →
    ∃ index',
      indexes (set_searchable_attrs self index_uid attrs).1 !! index_uid
      = Some index'
      ∧ searchable_attrs index' = attrs
      ∧ (updated_at index < updated_at index')%Z.

(** One filter pair passes for a document, under the value equality [eqv]:
    the field is present and its value equals the expected value, or one
    of its elements when the expected value is a list. *)
Definition pair_passes (eqv : value → value → Prop) (doc : document)
    (fe : string * value) : Prop :=
  ∃ v, get fe.1 doc = Some v
       ∧ match fe.2 with
         | VList l => ∃ e, e ∈ l ∧ eqv v e
         | expected => eqv v expected
         end.

(** The reading of C8 as the spec words it: values are compared with
    their type, so equal values are the same value. *)
Definition filters_compare_strictly : Prop :=
  ∀ doc filters,
    _matches_filters doc filters = true ↔ Forall (pair_passes eq doc) filters.

(** The documents of the index that have a posting for the term, in any
    field: the [doc_id]s that [COUNT(DISTINCT doc_id)] counts. *)
Definition documents_with_posting (conn : Database) (index_uid term : string)
    : gset string :=
  set_map (λ k : string * string * string * string, k.1.2)
    (filter (λ k : string * string * string * string,
               k.1.1.1 = index_uid ∧ k.1.1.2 = term)
            (dom (term_index conn))).

(** The weights as the spec gives them. *)
Definition field_weight (field : string) : R :=
  if decide (field = "title") then 3%R
  else if decide (field = "description") then 2%R
  else 1%R.

(** [N]: the counter [total_documents], with 1 in place of 0. *)
Definition corpus_size (index : Index) : Z :=
  if decide (total_documents index = 0%Z) then 1%Z else total_documents index.

Definition idf_of (conn : Database) (index_uid : string) (index : Index)
    (term : string) : R :=
  ln (IZR (corpus_size index)
      / IZR (Z.max 1 (Z.of_nat (document_frequency conn index_uid term)))).

(** What one field adds to the score for one query term. *)
Definition contribution (primary_key term : string) (idf : R)
    (fv : string * value) : R :=
  let terms_in_field := _tokenize (py_str fv.2) in
  let tf := count_term term terms_in_field in
  let field_len := length terms_in_field in
  if decide (fv.1 ≠ primary_key ∧ (0 < tf)%nat) then
    (field_weight fv.1 * idf
     * ((k1 + 1) * INR tf / (INR tf + k1 * (1 - b + b * INR field_len))))%R
  else 0%R.

Definition sum_R (l : list R) : R := foldr Rplus 0%R l.

(** The score as the sum, over the query terms in order and with
    repetition, of the contributions of the fields of the document. *)
Definition bm25_sum (conn : Database) (index_uid : string) (index : Index)
    (terms : list string) (doc : document) : R :=
  sum_R ((λ term,
            sum_R (contribution (primary_key index) term
                                (idf_of conn index_uid index term) <$> doc))
         <$> terms).

Global Instance Rlt_decision (x y : R) : Decision (x < y)%R := Rlt_dec x y.

(** The pair that scoring keeps for a document. *)
Definition score_item (sc : document → R) (kv : string * document)
    : string * R :=
  (kv.1, sc kv.2).

Definition score_ge (x y : string * R) : Prop := (y.2 <= x.2)%R.

(** The documents that survive scoring and filtering, in the order of the
    document set. *)
Definition survivors (sc : document → R) (filters : pydict value)
    (documents : pydict document) : pydict document :=
  filter (λ kv, _matches_filters kv.2 filters = true)
         (filter (λ kv, (0 < sc kv.2)%R) documents).

(** Every counter [total_documents] of the registry is non-negative; it
    holds from a fresh engine on, and [math.log] stays in its domain. *)
Definition counters_nonneg (self : SearchEngine) : Prop :=
  ∀ index_uid index,
    indexes self !! index_uid = Some index → (0 ≤ total_documents index)%Z.

(** The last document of a batch that has the id [doc_id]: the one an
    upsert keeps. *)
Definition batch_last (primary_key : string) (documents : list document)
    (doc_id : string) : option document :=
  last (filter (λ doc, doc_id_of primary_key doc = doc_id) documents).

(** The keys of [term_index] that indexing one field writes, and the
    position list it writes under each of them. *)
Definition field_keys (index_uid doc_id primary_key : string)
    (fv : string * value) : list (string * string * string * string) :=
  if decide (fv.1 = primary_key) then []
  else (λ term, (index_uid, term, doc_id, fv.1)) <$>
         elements (list_to_set (_tokenize (py_str fv.2)) : gset string).

Definition field_positions (fv : string * value) : list nat :=
  seq 0 (length (_tokenize (py_str fv.2))).

(** Every stored document sits under its own, non-empty id, in an index
    of the registry. *)
Definition store_ok (self : SearchEngine) : Prop :=
  ∀ index_uid doc_id doc,
    index_documents (db self) !! (index_uid, doc_id) = Some doc →
    ∃ index,
      indexes self !! index_uid = Some index
      ∧ doc_id_of (primary_key index) doc = doc_id
      ∧ doc_id ≠ "".

(** The registry is what the table [indexes] holds. *)
Definition persisted (self : SearchEngine) : Prop :=
  indexes_table (db self) = indexes self.

(** [name or uid] in [create_index]. *)
Definition effective_name (uid : string) (name : option string) : string :=
  match name with
  | Some n => if decide (n = "") then uid else n
  | None => uid
  end.

(** The document a hit stands for: [documents[doc_id]]. *)
Definition hit_of (documents : pydict document) (item : string * R)
    : document :=
  default [] (get item.1 documents).

(** Some query term occurs in the tokens of a field of the document other
    than the primary key. *)
Definition mentions (primary_key : string) (terms : list string)
    (doc : document) : Prop :=
  ∃ term fv,
    term ∈ terms ∧ fv ∈ doc ∧ fv.1 ≠ primary_key
    ∧ term ∈ _tokenize (py_str fv.2).

(** Every character of the string satisfies [p]. *)
Fixpoint all_chars (p : ascii → bool) (s : string) : bool :=
  match s with
  | EmptyString => true
  | String c s' => p c && all_chars p s'
  end.

(** The number of characters that [json.dumps] writes: two for a
    character with a short escape, six for another character outside the
    printable ASCII range, one for any other; two quotes around a string;
    [", "] between the items of a list or of an object and [": "] after a
    key. *)
Definition json_char_length (c : ascii) : nat :=
  let n := nat_of_ascii c in
  if decide (n = 34 ∨ n = 92 ∨ n = 8 ∨ n = 9 ∨ n = 10 ∨ n = 12 ∨ n = 13)
  then 2
  else if decide (n < 32 ∨ 126 < n)%nat then 6
  else 1.

Fixpoint json_chars_length (s : string) : nat :=
  match s with
  | EmptyString => 0
  | String c s' => json_char_length c + json_chars_length s'
  end.

Definition json_string_length (s : string) : nat := 2 + json_chars_length s.

Definition joined_length (ns : list nat) : nat :=
  sum_list ns + 2 * (length ns - 1).

Fixpoint json_value_length (v : value) : nat :=
  match v with
  | VNone => 4
  | VBool true => 4
  | VBool false => 5
  | VInt n => String.length (pretty n)
  | VStr s => json_string_length s
  | VList l => 2 + joined_length (map json_value_length l)
  end.

Definition json_length (doc : document) : nat :=
  2 + joined_length
        ((λ kv : string * value,
            json_string_length kv.1 + 2 + json_value_length kv.2) <$> doc).

(** A character of ASCII: the texts the tokenizer is modelled on. *)
Definition is_ascii (c : ascii) : bool :=
  bool_decide (nat_of_ascii c < 128)%nat.

(** The number of documents whose field [facet] stringifies to [key]. *)
Definition facet_value_count (facet key : string) (docs : list document)
    : nat :=
  length (filter (λ doc, py_str <$> get facet doc = Some key) docs).

(** ** Example states, built through the API from a fresh engine *)

Module Examples.

Definition books : SearchEngine :=
  (create_index new_engine 1%Z "books" "id" None).1.

Definition dune_world : document :=
  [("id", VStr "1"); ("title", VStr "dune world")].
Definition dune_sequel : document :=
  [("id", VStr "2"); ("title", VStr "dune sequel")].
Definition unrelated : document :=
  [("id", VStr "3"); ("title", VStr "unrelated text")].
Definition no_key : document := [("title", VStr "dune sequel")].
Definition retitled : document := [("id", VStr "1"); ("title", VStr "sequel")].

Definition books_index : Index :=
  mkIndex "books" "books" "id" 1%Z 1%Z 0%Z [] default_ranking_rules [] [] [].

Definition one_book : SearchEngine :=
  (add_documents books 2%Z "books" [dune_world]).1.

Definition three_books : SearchEngine :=
  (add_documents books 2%Z "books" [dune_world; dune_sequel; unrelated]).1.

(** Two deletions of ids that were never stored: three documents stay,
    the counter drops to 1. *)
Definition undercounted : SearchEngine :=
  (delete_document (delete_document three_books 3%Z "books" "8").1
                   4%Z "books" "9").1.

(** A document with an integer id, a title that needs escapes (a double
    quote, a backslash, a newline and the control characters 127 and 1)
    and a list of a string, a negative integer, a boolean and [None]:
    [json.dumps] writes it in 73 characters. *)
Definition mixed : document :=
  [("id", VInt 7);
   ("title",
    VStr (String "a" (String dquote (String backslash
            (String (ascii_of_nat 10) (String "z"
               (String (ascii_of_nat 127) (String (ascii_of_nat 1) ""))))))));
   ("tags", VList [VStr "x"; VInt (-2); VBool true; VNone])].

(** A fourth book, whose title is the term alone. *)
Definition short_title : document :=
  [("id", VStr "4"); ("title", VStr "Dune")].

Definition four_books : SearchEngine :=
  (add_documents three_books 3%Z "books" [short_title]).1.

Definition one_mixed : SearchEngine :=
  (add_documents books 2%Z "books" [mixed]).1.

End Examples.

(** * Properties *)

(** ** Dictionaries *)

Section pydict_facts.
Context {V : Type}.
Implicit Types (d : pydict V) (k : string) (v : V).

Lemma get_None_keys k d : get k d = None ↔ k ∉ keys d.
Proof.
  unfold keys. induction d as [|[k' v'] d IH]; simpl.
  - split; [intros _; apply not_elem_of_nil | done].
  - case_decide as Hk.
    + split; [done | intros Hnin; destruct Hnin; rewrite Hk; left].
    + rewrite IH, not_elem_of_cons.
      split; [intros ?; split; [congruence | done] | tauto].
Qed.

Lemma get_Some_elem k v d : get k d = Some v → (k, v) ∈ d.
Proof.
  induction d as [|[k' v'] d IH]; simpl; [done |].
  case_decide; subst.
  - intros [= ->]. left.
  - intros. right. auto.
Qed.

Lemma get_elem_NoDup k v d : NoDup (keys d) → (k, v) ∈ d → get k d = Some v.
Proof.
  unfold keys. induction d as [|[k' v'] d IH]; simpl.
  - intros _ H. by apply elem_of_nil in H.
  - rewrite NoDup_cons. intros [Hnin Hnd] Hin.
    apply elem_of_cons in Hin as [[= -> ->]|Hin].
    + by rewrite decide_True.
    + rewrite decide_False; [auto |].
      intros ->. apply Hnin. apply list_elem_of_fmap. by exists (k, v).
Qed.

Lemma set_fresh k v d : k ∉ keys d → set k v d = (d ++ [(k, v)])%list.
Proof.
  unfold keys. induction d as [|[k' v'] d IH]; simpl; [done |].
  rewrite not_elem_of_cons. intros [Hne Hnin].
  rewrite decide_False by done. by rewrite IH.
Qed.

Lemma get_set_eq k v d : get k (set k v d) = Some v.
Proof.
  induction d as [|[k' v'] d IH]; simpl.
  - by rewrite decide_True.
  - case_decide; simpl; [by rewrite decide_True | by rewrite decide_False].
Qed.

Lemma get_set_ne k k' v d : k ≠ k' → get k' (set k v d) = get k' d.
Proof.
  intros Hne. induction d as [|[k0 v0] d IH]; simpl.
  - by rewrite decide_False.
  - case_decide; simpl; subst.
    + by rewrite !decide_False.
    + by rewrite IH.
Qed.
End pydict_facts.

(** ** Ingestion *)

Lemma invalid_document_doc_id pk doc :
  invalid_document pk doc ↔ doc_id_of pk doc = "".
Proof. unfold invalid_document, doc_id_of. by destruct (get pk doc). Qed.

Lemma add_document_invalid index_uid pk conn doc :
  invalid_document pk doc →
  add_document index_uid pk conn doc = Raise (missing_primary_key pk).
Proof.
  intros H%invalid_document_doc_id. unfold add_document.
  by rewrite decide_True.
Qed.

Lemma add_document_valid index_uid pk conn doc :
  ¬ invalid_document pk doc →
  ∃ conn', add_document index_uid pk conn doc = Ok conn'.
Proof.
  rewrite invalid_document_doc_id. intros H. unfold add_document.
  rewrite decide_False by done. eauto.
Qed.

Lemma add_each_invalid index_uid pk documents conn :
  Exists (invalid_document pk) documents →
  add_each index_uid pk documents conn = Raise (missing_primary_key pk).
Proof.
  intros Hex. revert conn.
  induction documents as [|doc rest IH]; intros conn; simpl.
  - by apply Exists_nil in Hex.
  - destruct (decide (invalid_document pk doc)) as [Hbad|Hgood].
    + by rewrite add_document_invalid.
    + destruct (add_document_valid index_uid pk conn doc Hgood) as [c ->].
      simpl. apply IH. apply Exists_cons in Hex as [|]; done.
Qed.

Lemma add_each_valid index_uid pk documents conn :
  Forall (λ doc, ¬ invalid_document pk doc) documents →
  ∃ conn', add_each index_uid pk documents conn = Ok conn'.
Proof.
  intros Hall. revert conn.
  induction Hall as [|doc rest Hgood _ IH]; intros conn; simpl; [eauto |].
  destruct (add_document_valid index_uid pk conn doc Hgood) as [c ->].
  simpl. apply IH.
Qed.

(** C1, as stated, fails: in the batch [[dune_world; no_key]] the second
    document has no primary key, the call raises, and the first document is
    not stored afterwards, since the exception leaves the [with] block of
    the connection and the transaction is rolled back. *)
Lemma earlier_documents_not_kept : ¬ earlier_documents_kept.
Proof.
  intros H.
  assert (Hget := H Examples.books 2%Z "books" Examples.books_index
                    [Examples.dune_world] Examples.no_key []
                    Examples.dune_world).
  simpl in Hget.
  assert (Hstored :
    ∃ stored,
      get_document
        (add_documents Examples.books 2%Z "books"
                       [Examples.dune_world; Examples.no_key]).1 "books" "1"
      = Ok (Some stored)).
  { apply Hget.
    - vm_compute. reflexivity.
    - constructor; [| constructor]. vm_compute. discriminate.
    - vm_compute. exact I.
    - left. }
  destruct Hstored as [stored Hstored].
  vm_compute in Hstored. discriminate Hstored.
Qed.

(** C1 (amended): on an existing index, a batch holding a document whose
    primary-key field is missing or stringifies to the empty string makes
    [add_documents] raise the missing-primary-key [ValueError]; the
    remaining documents are not processed and the writes of the documents
    before it are rolled back with the transaction: the engine (stored
    documents, postings, counters) is as before the call. *)
Theorem add_documents_invalid_rolls_back self now index_uid index documents :
  indexes self !! index_uid = Some index →
  Exists (invalid_document (primary_key index)) documents →
  add_documents self now index_uid documents
  = (self, Raise (missing_primary_key (primary_key index))).
Proof.
  intros Hidx Hbad. unfold add_documents, transaction. rewrite Hidx.
  rewrite add_each_invalid by done. simpl. by destruct self.
Qed.

Lemma add_documents_invalid_rolls_back_witness :
  add_documents Examples.books 2%Z "books"
                [Examples.dune_world; Examples.no_key]
  = (Examples.books, Raise (missing_primary_key "id")).
Proof.
  apply (add_documents_invalid_rolls_back Examples.books 2%Z "books"
           Examples.books_index).
  - vm_compute. reflexivity.
  - right. left. vm_compute. exact I.
Defined.

(** *** Postings against the stored document *)

(** C2 fails on the code: rewriting document 1 of [one_book] (title
    "dune world") with the title "sequel", through [add_documents] or
    through [update_document], stores the new document and leaves the
    postings of "dune" and "world" of the earlier version in [term_index];
    the document frequency of "dune" still counts the document. *)
Theorem stale_postings_persist :
  let self :=
    (add_documents Examples.one_book 3%Z "books" [Examples.retitled]).1 in
  let self' :=
    (update_document Examples.one_book 3%Z "books" "1"
                     [("title", VStr "sequel")]).1 in
  self' = self
  ∧ get_document self "books" "1" = Ok (Some Examples.retitled)
  ∧ expected_postings "id" Examples.retitled = [("sequel", "title")]
  ∧ ("dune", "title") ∈ postings_of (db self) "books" "1"
  ∧ ("world", "title") ∈ postings_of (db self) "books" "1"
  ∧ document_frequency (db self) "books" "dune" = 1%nat.
Proof.
  repeat split; try (vm_compute; reflexivity);
    apply (bool_decide_unpack _); vm_compute; exact I.
Qed.

(** *** The counter [total_documents] *)

Lemma add_documents_valid self now index_uid index documents :
  indexes self !! index_uid = Some index →
  Forall (λ doc, ¬ invalid_document (primary_key index) doc) documents →
  ∃ self',
    add_documents self now index_uid documents = (self', Ok ())
    ∧ indexes self' !! index_uid
      = Some (with_stats
                (total_documents index + Z.of_nat (length documents)) now index).
Proof.
  intros Hidx Hall. unfold add_documents, transaction. rewrite Hidx.
  destruct (add_each_valid index_uid (primary_key index) documents
              (db self) Hall) as [conn' ->]. simpl.
  eexists; split; [done |]. simpl. by rewrite lookup_insert_eq.
Qed.

Lemma delete_document_existing self now index_uid index doc_id :
  indexes self !! index_uid = Some index →
  ∃ self',
    delete_document self now index_uid doc_id = (self', Ok ())
    ∧ indexes self' !! index_uid
      = Some (with_stats (Z.max 0 (total_documents index - 1)) now index).
Proof.
  intros Hidx. unfold delete_document. rewrite Hidx.
  eexists; split; [done |]. simpl. by rewrite lookup_insert_eq.
Qed.

(** C4: a successful [add_documents] adds the batch size to
    [total_documents], whatever ids the batch holds; [delete_document]
    takes one off, floored at zero; and the counter may differ from the
    number of stored documents, as after adding the same document twice. *)
Theorem total_documents_is_a_maintained_counter :
  (∀ self now index_uid index documents,
     indexes self !! index_uid = Some index →
     Forall (λ doc, ¬ invalid_document (primary_key index) doc) documents →
     ∃ self' index',
       add_documents self now index_uid documents = (self', Ok ())
       ∧ indexes self' !! index_uid = Some index'
       ∧ total_documents index'
         = (total_documents index + Z.of_nat (length documents))%Z)
  ∧ (∀ self now index_uid index doc_id,
       indexes self !! index_uid = Some index →
       ∃ self' index',
         delete_document self now index_uid doc_id = (self', Ok ())
         ∧ indexes self' !! index_uid = Some index'
         ∧ total_documents index' = Z.max 0 (total_documents index - 1))
  ∧ (let self :=
       (add_documents Examples.one_book 3%Z "books" [Examples.dune_world]).1 in
     total_documents <$> indexes self !! "books" = Some 2%Z
     ∧ stored_documents self "books" = 1%nat).
Proof.
  split; [| split].
  - intros self now index_uid index documents Hidx Hall.
    destruct (add_documents_valid self now index_uid index documents Hidx Hall)
      as (self' & Hadd & Hlook).
    by eexists _, _.
  - intros self now index_uid index doc_id Hidx.
    destruct (delete_document_existing self now index_uid index doc_id Hidx)
      as (self' & Hdel & Hlook).
    by eexists _, _.
  - split; vm_compute; reflexivity.
Qed.

Lemma total_documents_is_a_maintained_counter_witness :
  (∃ self' index',
     add_documents Examples.one_book 3%Z "books" [Examples.dune_world]
     = (self', Ok ())
     ∧ indexes self' !! "books" = Some index'
     ∧ total_documents index' = 2%Z)
  ∧ (∃ self' index',
       delete_document Examples.books 3%Z "books" "1" = (self', Ok ())
       ∧ indexes self' !! "books" = Some index'
       ∧ total_documents index' = 0%Z).
Proof.
  destruct total_documents_is_a_maintained_counter as (Hadd & Hdel & _).
  split.
  - apply (Hadd Examples.one_book 3%Z "books"
             (with_stats 1 2 Examples.books_index) [Examples.dune_world]).
    + vm_compute. reflexivity.
    + constructor; [| constructor]. vm_compute. discriminate.
  - apply (Hdel Examples.books 3%Z "books" Examples.books_index "1").
    vm_compute. reflexivity.
Defined.

(** C9: deleting a document id that is not stored raises nothing, takes
    one off [total_documents] (floored at zero) and sets [updated_at] to
    the time of the call. *)
Theorem delete_absent_document_still_counts self now index_uid index doc_id :
  indexes self !! index_uid = Some index →
  index_documents (db self) !! (index_uid, doc_id) = None →
  ∃ self' index',
    delete_document self now index_uid doc_id = (self', Ok ())
    ∧ indexes self' !! index_uid = Some index'
    ∧ total_documents index' = Z.max 0 (total_documents index - 1)
    ∧ updated_at index' = now
    ∧ index_documents (db self') = index_documents (db self).
Proof.
  intros Hidx Habsent.
  destruct (delete_document_existing self now index_uid index doc_id Hidx)
    as (self' & Hdel & Hlook).
  exists self', (with_stats (Z.max 0 (total_documents index - 1)) now index).
  repeat split; try done.
  unfold delete_document in Hdel. rewrite Hidx in Hdel.
  injection Hdel as <-. simpl. by apply delete_id.
Qed.

Lemma delete_absent_document_still_counts_witness :
  ∃ self' index',
    delete_document Examples.one_book 5%Z "books" "nobody" = (self', Ok ())
    ∧ indexes self' !! "books" = Some index'
    ∧ total_documents index' = 0%Z
    ∧ updated_at index' = 5%Z
    ∧ index_documents (db self') = index_documents (db Examples.one_book).
Proof.
  apply (delete_absent_document_still_counts Examples.one_book 5%Z "books"
           (with_stats 1 2 Examples.books_index) "nobody");
    vm_compute; reflexivity.
Defined.

(** ** Field configuration *)

Lemma set_attrs_existing f self index_uid attrs index :
  indexes self !! index_uid = Some index →
  ∃ self',
    set_attrs f self index_uid attrs = (self', Ok ())
    ∧ indexes self' !! index_uid = Some (f attrs index)
    ∧ indexes_table (db self')
      = alter (f attrs) index_uid (indexes_table (db self)).
Proof.
  intros Hidx. unfold set_attrs. rewrite Hidx.
  eexists; split; [done |]. simpl. by rewrite lookup_insert_eq.
Qed.

Lemma set_attrs_absent f self index_uid attrs :
  indexes self !! index_uid = None →
  set_attrs f self index_uid attrs = (self, Raise (not_found index_uid)).
Proof. intros Hidx. unfold set_attrs. by rewrite Hidx. Qed.

(** C5, as stated, fails: [set_searchable_attrs] on the index "books",
    last updated at time 1, leaves [updated_at] at 1. *)
Lemma setters_keep_updated_at : ¬ setters_bump_updated_at.
Proof.
  intros H.
  destruct (H Examples.books "books" ["title"] Examples.books_index)
    as (index' & Hlook & _ & Hlt).
  { vm_compute. reflexivity. }
  vm_compute in Hlook. injection Hlook as <-. simpl in Hlt. lia.
Qed.

(** C5 (amended): on an existing index each of the three setters returns
    normally and replaces its attribute list, in the registry and in the
    persisted row, leaving every other field of the index, [updated_at]
    included, as it was; on an absent uid each raises the not-found
    [ValueError] and changes nothing. *)
Theorem setters_replace_their_list self index_uid attrs :
  (∀ index,
     indexes self !! index_uid = Some index →
     (∃ self',
        set_searchable_attrs self index_uid attrs = (self', Ok ())
        ∧ indexes self' !! index_uid = Some (with_searchable_attrs attrs index)
        ∧ indexes_table (db self')
          = alter (with_searchable_attrs attrs) index_uid
                  (indexes_table (db self)))
     ∧ (∃ self',
          set_filterable_attrs self index_uid attrs = (self', Ok ())
          ∧ indexes self' !! index_uid
            = Some (with_filterable_attrs attrs index)
          ∧ indexes_table (db self')
            = alter (with_filterable_attrs attrs) index_uid
                    (indexes_table (db self)))
     ∧ (∃ self',
          set_sortable_attrs self index_uid attrs = (self', Ok ())
          ∧ indexes self' !! index_uid = Some (with_sortable_attrs attrs index)
          ∧ indexes_table (db self')
            = alter (with_sortable_attrs attrs) index_uid
                    (indexes_table (db self)))
     ∧ searchable_attrs (with_searchable_attrs attrs index) = attrs
     ∧ filterable_attrs (with_filterable_attrs attrs index) = attrs
     ∧ sortable_attrs (with_sortable_attrs attrs index) = attrs
     ∧ updated_at (with_searchable_attrs attrs index) = updated_at index
     ∧ updated_at (with_filterable_attrs attrs index) = updated_at index
     ∧ updated_at (with_sortable_attrs attrs index) = updated_at index)
  ∧ (indexes self !! index_uid = None →
     set_searchable_attrs self index_uid attrs
     = (self, Raise (not_found index_uid))
     ∧ set_filterable_attrs self index_uid attrs
       = (self, Raise (not_found index_uid))
     ∧ set_sortable_attrs self index_uid attrs
       = (self, Raise (not_found index_uid))).
Proof.
  split.
  - intros index Hidx.
    repeat split; try done; by apply set_attrs_existing.
  - intros Hidx. repeat split; by apply set_attrs_absent.
Qed.

Lemma setters_replace_their_list_witness :
  (∃ self',
     set_searchable_attrs Examples.books "books" ["title"] = (self', Ok ())
     ∧ indexes self' !! "books"
       = Some (with_searchable_attrs ["title"] Examples.books_index)
     ∧ indexes_table (db self')
       = alter (with_searchable_attrs ["title"]) "books"
               (indexes_table (db Examples.books)))
  ∧ set_sortable_attrs Examples.books "films" ["year"]
    = (Examples.books, Raise (not_found "films")).
Proof.
  split.
  - apply (setters_replace_their_list Examples.books "books" ["title"]).
    vm_compute. reflexivity.
  - apply (setters_replace_their_list Examples.books "films" ["year"]).
    vm_compute. reflexivity.
Defined.

(** ** Filters *)

(** C8, as stated, fails: the filter [{"active": 1}] matches a document
    whose field [active] is [True], because [True == 1] in Python. *)
Lemma filters_do_not_compare_strictly : ¬ filters_compare_strictly.
Proof.
  intros H.
  destruct (H [("id", VStr "1"); ("active", VBool true)] [("active", VInt 1)])
    as [Hmatch _].
  specialize (Hmatch eq_refl).
  apply Forall_cons in Hmatch as [(v & Hget & Heq) _].
  vm_compute in Hget. injection Hget as <-. discriminate Heq.
Qed.

Lemma py_in_elem v l : py_in v l = true ↔ ∃ e, e ∈ l ∧ py_eq v e = true.
Proof.
  unfold py_in. rewrite existsb_exists.
  split; intros (e & He & Heq); exists e; split; try done;
    by apply list_elem_of_In.
Qed.

Lemma _matches_filters_cons doc field expected rest :
  _matches_filters doc ((field, expected) :: rest) = true
  ↔ pair_passes (λ v w, py_eq v w = true) doc (field, expected)
    ∧ _matches_filters doc rest = true.
Proof.
  unfold pair_passes. simpl. destruct (get field doc) as [v|].
  - assert (Hif : ∀ c : bool,
        (if negb c then false else _matches_filters doc rest) = true
        ↔ c = true ∧ _matches_filters doc rest = true).
    { intros []; simpl; intuition congruence. }
    destruct expected; rewrite Hif; try rewrite py_in_elem;
      (split; [intros [? ?]; split; [eexists; split; [done | done] | done]
              | intros [(v' & [= <-] & ?) ?]; done]).
  - split; [done | intros [(v' & [=] & _) _]].
Qed.

(** C8 (amended): [_matches_filters] succeeds exactly when every pair of
    the filter passes, the pairs being joined by "and": the field is
    present in the document and its value equals the expected value, or
    one element of it when the expected value is a list.  The equality is
    Python's [==]: a string never equals a number or a boolean, and a
    boolean equals the integer 1 or 0 of its truth value. *)
Theorem matches_filters_iff_all_pairs_pass :
  (∀ doc filters,
     _matches_filters doc filters = true
     ↔ Forall (pair_passes (λ v w, py_eq v w = true) doc) filters)
  ∧ (∀ s n c, py_eq (VStr s) (VInt n) = false
              ∧ py_eq (VInt n) (VStr s) = false
              ∧ py_eq (VStr s) (VBool c) = false
              ∧ py_eq (VBool c) (VStr s) = false)
  ∧ (∀ c, py_eq (VBool c) (VInt (int_of_bool c)) = true).
Proof.
  split; [| split].
  - intros doc filters. induction filters as [|[field expected] rest IH].
    + simpl. split; [constructor | done].
    + rewrite _matches_filters_cons, Forall_cons, IH. done.
  - done.
  - intros c. simpl. by apply bool_decide_eq_true_2.
Qed.

(** ** BM25 scoring *)

Lemma field_weights_get field :
  default 1%R (get field field_weights) = field_weight field.
Proof.
  unfold field_weight, field_weights. simpl.
  repeat (case_decide; subst; simpl; try done).
Qed.

Lemma score_field_contribution pk term idf score fv :
  score_field pk term idf score fv = (score + contribution pk term idf fv)%R.
Proof.
  unfold score_field, contribution. rewrite field_weights_get.
  destruct (decide (fv.1 = pk)) as [Heq|Hne].
  - rewrite decide_False by tauto. lra.
  - destruct (decide (0 < count_term term (_tokenize (py_str fv.2)))%nat).
    + rewrite decide_True by tauto. done.
    + rewrite decide_False by tauto. lra.
Qed.

Lemma sum_R_cons x l : sum_R (x :: l) = (x + sum_R l)%R.
Proof. reflexivity. Qed.

Lemma score_fields_sum pk term idf doc score :
  fold_left (score_field pk term idf) doc score
  = (score + sum_R (contribution pk term idf <$> doc))%R.
Proof.
  revert score. induction doc as [|fv doc IH]; intros score.
  - simpl. unfold sum_R. simpl. lra.
  - rewrite fmap_cons, sum_R_cons. simpl.
    rewrite IH, score_field_contribution. lra.
Qed.

Lemma corpus_size_pos index :
  (0 ≤ total_documents index)%Z → (1 ≤ corpus_size index)%Z.
Proof. unfold corpus_size. case_decide; lia. Qed.

Lemma ratio_pos n d : (1 ≤ n)%Z → (1 ≤ d)%Z → (0 < IZR n / IZR d)%R.
Proof.
  intros Hn Hd. apply Rdiv_lt_0_compat; apply (IZR_lt 0); lia.
Qed.

Lemma ln_ratio_neg n d : (1 ≤ n)%Z → (n < d)%Z → (ln (IZR n / IZR d) < 0)%R.
Proof.
  intros Hn Hd. rewrite <- ln_1.
  apply ln_increasing; [apply ratio_pos; lia |].
  assert (0 < IZR d)%R by (apply (IZR_lt 0); lia).
  apply (Rmult_lt_reg_r (IZR d)); [done |].
  unfold Rdiv. rewrite Rmult_assoc, Rinv_l, Rmult_1_r, Rmult_1_l by lra.
  by apply IZR_lt.
Qed.

Lemma score_term_sum self index_uid index doc score term :
  indexes self !! index_uid = Some index →
  (0 ≤ total_documents index)%Z →
  score_term self index_uid doc score term
  = Ok (score + sum_R (contribution (primary_key index) term
                         (idf_of (db self) index_uid index term) <$> doc))%R.
Proof.
  intros Hidx Hnonneg. unfold score_term, math_log. rewrite Hidx.
  fold (corpus_size index).
  destruct (Rlt_dec _ _) as [_|Hneg]; simpl.
  - by rewrite score_fields_sum.
  - destruct Hneg. apply ratio_pos; [by apply corpus_size_pos | lia].
Qed.

Lemma score_terms_sum self index_uid index doc terms score :
  indexes self !! index_uid = Some index →
  (0 ≤ total_documents index)%Z →
  score_terms self index_uid doc terms score
  = Ok (score + bm25_sum (db self) index_uid index terms doc)%R.
Proof.
  intros Hidx Hnonneg. revert score.
  induction terms as [|term rest IH]; intros score.
  - unfold bm25_sum, sum_R. simpl. f_equal. lra.
  - simpl. rewrite (score_term_sum _ _ index) by done. simpl. rewrite IH.
    unfold bm25_sum. rewrite fmap_cons, sum_R_cons. f_equal. lra.
Qed.

Lemma _bm25_score_sum self index_uid index terms doc_id doc :
  indexes self !! index_uid = Some index →
  (0 ≤ total_documents index)%Z →
  _bm25_score self index_uid terms doc_id doc
  = Ok (bm25_sum (db self) index_uid index terms doc).
Proof.
  intros Hidx Hnonneg. unfold _bm25_score.
  rewrite (score_terms_sum _ _ index) by done. f_equal. lra.
Qed.

(** *** The sign of a contribution *)

Lemma contribution_skip pk term idf fv :
  fv.1 = pk ∨ count_term term (_tokenize (py_str fv.2)) = 0%nat →
  contribution pk term idf fv = 0%R.
Proof.
  intros H. unfold contribution. rewrite decide_False; [done |].
  intros [? ?]. destruct H; [done | lia].
Qed.

Lemma contribution_pos pk term idf fv :
  fv.1 ≠ pk → (0 < count_term term (_tokenize (py_str fv.2)))%nat →
  (0 < idf)%R → (0 < contribution pk term idf fv)%R.
Proof.
  intros Hne Htf Hidf. unfold contribution. rewrite decide_True by done.
  assert (0 < INR (count_term term (_tokenize (py_str fv.2))))%R
    by (by apply lt_0_INR).
  pose proof (pos_INR (length (_tokenize (py_str fv.2)))).
  assert (0 < field_weight fv.1)%R
    by (unfold field_weight; repeat case_decide; lra).
  unfold k1, b.
  apply Rmult_lt_0_compat; [by apply Rmult_lt_0_compat |].
  apply Rdiv_lt_0_compat; nra.
Qed.

(** *** The quantities of the formula, by what they count *)

Lemma documents_with_posting_elem conn index_uid term d :
  d ∈ documents_with_posting conn index_uid term
  ↔ ∃ field positions,
      term_index conn !! (index_uid, term, d, field) = Some positions.
Proof.
  unfold documents_with_posting. rewrite elem_of_map. split.
  - intros ([[[u t] d'] f] & -> & Hin).
    apply elem_of_filter in Hin as [[Hu Ht] Hin]. simpl in *. subst.
    apply elem_of_dom in Hin as [positions Hp]. eauto.
  - intros (field & positions & Hp).
    exists (index_uid, term, d, field). split; [done |].
    apply elem_of_filter. split; [done |]. apply elem_of_dom. eauto.
Qed.

Lemma document_frequency_size conn index_uid term :
  document_frequency conn index_uid term
  = size (documents_with_posting conn index_uid term).
Proof.
  unfold document_frequency. f_equal. apply set_eq. intros d.
  rewrite documents_with_posting_elem, elem_of_list_to_set. split.
  - intros ([[u t] d'] & -> & Hin)%list_elem_of_fmap.
    apply list_elem_of_fmap in Hin as ([[[u' t'] d''] f] & Heq & Hin).
    apply list_elem_of_fmap in Hin as ([k positions] & Hk & Hin).
    apply list_elem_of_filter in Hin as [[Hu Ht] Hin]. simpl in *.
    simplify_eq. apply elem_of_map_to_list in Hin. eauto.
  - intros (field & positions & Hp).
    apply list_elem_of_fmap. exists (index_uid, term, d). split; [done |].
    apply list_elem_of_fmap. exists (index_uid, term, d, field).
    split; [done |].
    apply list_elem_of_fmap. exists (index_uid, term, d, field, positions).
    split; [done |].
    apply list_elem_of_filter. split; [done |].
    by apply elem_of_map_to_list.
Qed.

Lemma count_term_count_occ term terms :
  count_term term terms = count_occ String.string_dec terms term.
Proof.
  unfold count_term. induction terms as [|t terms IH]; [done |].
  simpl count_occ. destruct (String.string_dec t term) as [->|Hne].
  - rewrite filter_cons_True by done. simpl. by rewrite IH.
  - by rewrite filter_cons_False.
Qed.

Lemma contribution_count_occ pk term idf fv :
  contribution pk term idf fv
  = let tokens := _tokenize (py_str fv.2) in
    let tf := count_occ String.string_dec tokens term in
    let field_len := length tokens in
    if decide (fv.1 ≠ pk ∧ (0 < tf)%nat) then
      (field_weight fv.1 * idf
       * ((k1 + 1) * INR tf / (INR tf + k1 * (1 - b + b * INR field_len))))%R
    else 0%R.
Proof. unfold contribution. by rewrite count_term_count_occ. Qed.

(** C3: with [N = total_documents] (1 when the counter is 0), [df] the
    number of distinct documents with a posting for the term in any field
    and [idf = ln (N / max 1 df)], the score is the sum, for each query
    term in turn, of
    [weight * idf * (k1+1)*tf / (tf + k1*(1 - b + b*fieldLen))] over the
    fields other than the primary key in which the term occurs [tf > 0]
    times, [tf] being the number of occurrences of the term among the
    tokens of the field and [fieldLen] the number of those tokens;
    [k1 = 1.5], [b = 0.75]; the weight is 3 for "title", 2 for
    "description", 1 for "body" and any other field; [idf] is not clamped
    and is negative when [df > N]. *)
Theorem bm25_score_formula self index_uid index terms doc_id doc :
  indexes self !! index_uid = Some index →
  (0 ≤ total_documents index)%Z →
  let N := if decide (total_documents index = 0%Z) then 1%Z
           else total_documents index in
  let df term := size (documents_with_posting (db self) index_uid term) in
  let idf term := ln (IZR N / IZR (Z.max 1 (Z.of_nat (df term)))) in
  let field_sum term :=
    sum_R ((λ fv : string * value,
              let tokens := _tokenize (py_str fv.2) in
              let tf := count_occ String.string_dec tokens term in
              let field_len := length tokens in
              if decide (fv.1 ≠ primary_key index ∧ (0 < tf)%nat) then
                (field_weight fv.1 * idf term
                 * ((k1 + 1) * INR tf
                    / (INR tf + k1 * (1 - b + b * INR field_len))))%R
              else 0%R) <$> doc) in
  (∀ term d,
     d ∈ documents_with_posting (db self) index_uid term
     ↔ ∃ field positions,
         term_index (db self) !! (index_uid, term, d, field) = Some positions)
  ∧ _bm25_score self index_uid terms doc_id doc
    = Ok (sum_R (field_sum <$> terms))
  ∧ (∀ term, (N < Z.of_nat (df term))%Z → (idf term < 0)%R)
  ∧ k1 = (15 / 10)%R ∧ b = (75 / 100)%R
  ∧ field_weight "title" = 3%R ∧ field_weight "description" = 2%R
  ∧ field_weight "body" = 1%R
  ∧ (∀ field, field ≠ "title" → field ≠ "description" →
              field_weight field = 1%R).
Proof.
  intros Hidx Hnonneg N df idf field_sum.
  split; [intros; apply documents_with_posting_elem |].
  split; [| split; [| repeat split]].
  - rewrite (_bm25_score_sum _ _ index) by done. unfold bm25_sum.
    do 2 f_equal. apply list_fmap_ext. intros _ term _.
    unfold field_sum. f_equal. apply list_fmap_ext. intros _ fv _.
    rewrite contribution_count_occ. unfold idf_of, idf, df, N, corpus_size.
    by rewrite document_frequency_size.
  - intros term Hlt. unfold idf.
    replace (Z.max 1 (Z.of_nat (df term))) with (Z.of_nat (df term)).
    + apply ln_ratio_neg; [| done]. by apply corpus_size_pos.
    + pose proof (corpus_size_pos index Hnonneg). unfold corpus_size in *.
      fold N in H. lia.
  - unfold k1. lra.
  - unfold b. lra.
  - intros field H1 H2. unfold field_weight.
    by rewrite !decide_False.
Qed.

(** With the counter at 1 and two documents that hold "dune", the title
    "dune world" scores [3 * ln (1/2) * 2.5 / 3.625], which is negative. *)
Lemma bm25_score_formula_witness :
  _bm25_score Examples.undercounted "books" ["dune"] "1" Examples.dune_world
  = Ok (60 / 29 * ln (1 / 2))%R
  ∧ (60 / 29 * ln (1 / 2) < 0)%R.
Proof.
  destruct (bm25_score_formula Examples.undercounted "books"
              (with_stats 1 4 Examples.books_index) ["dune"] "1"
              Examples.dune_world)
    as (_ & Hscore & Hneg & _ & _ & Htitle & _).
  - vm_compute. reflexivity.
  - simpl. lia.
  - cbv zeta in Hscore, Hneg.
    assert (Hdf : size (documents_with_posting (db Examples.undercounted)
                          "books" "dune") = 2%nat)
      by (vm_compute; reflexivity).
    specialize (Hneg "dune"). rewrite Hdf in Hneg.
    unfold Examples.dune_world in Hscore.
    rewrite !fmap_cons, !fmap_nil, !sum_R_cons in Hscore.
    cbn [fst snd] in Hscore. rewrite Hdf, Htitle in Hscore.
    change (total_documents (with_stats 1 4 Examples.books_index))
      with 1%Z in Hscore, Hneg.
    rewrite (decide_False (P := 1%Z = 0%Z)) in Hscore, Hneg by done.
    change (Z.max 1 (Z.of_nat 2)) with 2%Z in Hscore, Hneg.
    change (Z.of_nat 2) with 2%Z in Hneg.
    rewrite decide_False in Hscore by (intros [Hpk _]; by apply Hpk).
    rewrite decide_True in Hscore by (split; [done | vm_compute; lia]).
    replace (count_occ String.string_dec
               (_tokenize (py_str (VStr "dune world"))) "dune")
      with 1%nat in Hscore by (vm_compute; reflexivity).
    replace (length (_tokenize (py_str (VStr "dune world"))))
      with 2%nat in Hscore by (vm_compute; reflexivity).
    change (sum_R []) with 0%R in Hscore.
    change (INR 1) with 1%R in Hscore. change (INR 2) with (1 + 1)%R in Hscore.
    unfold k1, b in Hscore.
    specialize (Hneg ltac:(lia)).
    split; [| lra]. unfold Examples.dune_world. rewrite Hscore. f_equal. lra.
Defined.

(** ** Search *)

Lemma select_documents_perm conn index_uid :
  select_documents conn index_uid
  ≡ₚ (λ row : string * string * document, (row.1.2, row.2)) <$>
       filter (λ row, row.1.1 = index_uid)
              (map_to_list (index_documents conn)).
Proof. apply merge_sort_Permutation. Qed.

Lemma select_documents_elem conn index_uid doc_id doc :
  (doc_id, doc) ∈ select_documents conn index_uid
  ↔ index_documents conn !! (index_uid, doc_id) = Some doc.
Proof.
  rewrite select_documents_perm. rewrite list_elem_of_fmap. split.
  - intros ([[u d] doc'] & [= -> ->] & Hin).
    apply list_elem_of_filter in Hin as [Hu Hin]. simpl in Hu. subst u.
    by apply elem_of_map_to_list in Hin.
  - intros Hlook. exists (index_uid, doc_id, doc). split; [done |].
    apply list_elem_of_filter. split; [done |].
    by apply elem_of_map_to_list.
Qed.

Lemma select_documents_NoDup conn index_uid :
  NoDup (keys (select_documents conn index_uid)).
Proof.
  unfold keys. rewrite select_documents_perm, <- list_fmap_compose.
  apply NoDup_fmap_2_strong.
  - intros [[u1 d1] doc1] [[u2 d2] doc2] H1 H2. simpl. intros ->.
    apply list_elem_of_filter in H1 as [Hu1 H1].
    apply list_elem_of_filter in H2 as [Hu2 H2]. simpl in *. subst.
    apply elem_of_map_to_list in H1, H2. congruence.
  - apply NoDup_filter, NoDup_map_to_list.
Qed.

Lemma dict_of_rows_loop (rows acc : pydict document) :
  NoDup (keys acc ++ keys rows) →
  fold_left (λ d r, set r.1 r.2 d) rows acc = (acc ++ rows)%list.
Proof.
  revert acc. induction rows as [|[k v] rows IH]; intros acc Hnd; simpl.
  - by rewrite app_nil_r.
  - unfold keys in *. rewrite fmap_cons in Hnd. simpl in Hnd.
    rewrite set_fresh.
    + rewrite IH; [by rewrite <- app_assoc |].
      by rewrite fmap_app, <- app_assoc.
    + apply NoDup_app in Hnd as (_ & Hdisj & _).
      intros Hin. apply (Hdisj k Hin). left.
Qed.

Lemma dict_of_rows_NoDup rows : NoDup (keys rows) → dict_of_rows rows = rows.
Proof. intros Hnd. unfold dict_of_rows. by rewrite dict_of_rows_loop. Qed.

Lemma NoDup_app_cons_inv {A} (l r : list A) (a : A) :
  NoDup (l ++ a :: r) → (a ∉ l) ∧ NoDup (l ++ r).
Proof.
  rewrite <- Permutation_middle, NoDup_cons, not_elem_of_app. tauto.
Qed.

Lemma score_documents_scored self index_uid terms (sc : document → R)
    documents scores :
  (∀ doc_id doc, _bm25_score self index_uid terms doc_id doc = Ok (sc doc)) →
  NoDup (keys scores ++ keys documents) →
  score_documents self index_uid terms documents scores
  = Ok (scores ++ (score_item sc <$>
                   filter (λ kv, (0 < sc kv.2)%R) documents))%list.
Proof.
  intros Hsc. revert scores.
  induction documents as [|[doc_id doc] rest IH]; intros scores Hnd.
  - simpl. by rewrite app_nil_r.
  - unfold keys in *. rewrite fmap_cons in Hnd.
    simpl in Hnd. destruct (NoDup_app_cons_inv _ _ _ Hnd) as [Hfresh Hnd'].
    destruct (Rlt_dec 0 (sc doc)) as [Hpos|Hnpos] eqn:Hdec.
    + rewrite filter_cons_True by done. simpl. rewrite Hsc. simpl.
      rewrite Hdec, set_fresh by done.
      rewrite IH; [by rewrite <- app_assoc |].
      by rewrite fmap_app, <- app_assoc.
    + rewrite filter_cons_False by done. simpl. rewrite Hsc. simpl.
      rewrite Hdec. by apply IH.
Qed.

Lemma apply_filters_loop_kept (sc : document → R) documents filters
    (ds : pydict document) filtered :
  (∀ kv, kv ∈ ds → get kv.1 documents = Some kv.2) →
  NoDup (keys filtered ++ keys ds) →
  apply_filters_loop (score_item sc <$> ds) documents filters filtered
  = Ok (filtered ++ (score_item sc <$>
                     filter (λ kv, _matches_filters kv.2 filters = true) ds))%list.
Proof.
  revert filtered.
  induction ds as [|[doc_id doc] rest IH]; intros filtered Hget Hnd.
  - simpl. by rewrite app_nil_r.
  - unfold keys in *. rewrite fmap_cons in Hnd. simpl in Hnd.
    destruct (NoDup_app_cons_inv _ _ _ Hnd) as [Hfresh Hnd'].
    assert (Hget' : ∀ kv, kv ∈ rest → get kv.1 documents = Some kv.2)
      by (intros kv Hin; apply Hget; by right).
    pose proof (Hget (doc_id, doc) ltac:(left)) as Hdoc. simpl in Hdoc.
    destruct (_matches_filters doc filters) eqn:Hm.
    + rewrite filter_cons_True by done. simpl. unfold getitem.
      rewrite Hdoc. simpl. rewrite Hm, set_fresh by done.
      rewrite IH; [by rewrite <- app_assoc | done |].
      by rewrite fmap_app, <- app_assoc.
    + rewrite filter_cons_False by (simpl; congruence). simpl.
      unfold getitem. rewrite Hdoc. simpl. rewrite Hm. by apply IH.
Qed.

(** *** Sorting by score *)

Lemma insert_by_score_perm x l : insert_by_score x l ≡ₚ x :: l.
Proof.
  induction l as [|y l IH]; simpl; [done |].
  destruct (Rlt_dec x.2 y.2); [| done].
  rewrite IH. apply perm_swap.
Qed.

Lemma sorted_by_score_perm items : sorted_by_score items ≡ₚ items.
Proof.
  induction items as [|x items IH]; simpl; [done |].
  by rewrite insert_by_score_perm, IH.
Qed.

Lemma sorted_by_score_length items :
  length (sorted_by_score items) = length items.
Proof. by rewrite sorted_by_score_perm. Qed.

Lemma insert_by_score_sorted x l :
  StronglySorted score_ge l → StronglySorted score_ge (insert_by_score x l).
Proof.
  induction 1 as [|y l Hsorted IH Hall]; simpl.
  - repeat constructor.
  - destruct (Rlt_dec x.2 y.2) as [Hlt|Hge].
    + constructor; [done |].
      rewrite insert_by_score_perm. constructor; [| done].
      unfold score_ge. lra.
    + constructor; [by constructor |].
      constructor; [unfold score_ge; lra |].
      eapply Forall_impl; [exact Hall |].
      unfold score_ge. intros z Hz. lra.
Qed.

Lemma sorted_by_score_sorted items :
  StronglySorted score_ge (sorted_by_score items).
Proof.
  induction items as [|x items IH]; simpl; [constructor |].
  by apply insert_by_score_sorted.
Qed.

(** *** Slices *)

Lemma py_slice_subseteq {A} (l : list A) start stop : py_slice l start stop ⊆ l.
Proof.
  unfold py_slice. etrans; [apply subseteq_take | apply subseteq_drop].
Qed.

Lemma py_slice_beyond {A} (l : list A) start stop :
  (Z.of_nat (length l) ≤ start)%Z → py_slice l start stop = [].
Proof.
  intros Hlen.
  assert (Hlo : slice_index (Z.of_nat (length l)) start = Z.of_nat (length l))
    by (unfold slice_index; case_decide; lia).
  unfold py_slice. cbv zeta. rewrite Hlo.
  rewrite drop_ge by lia. apply take_nil.
Qed.

Lemma py_slice_ordered {A} (l : list A) start stop :
  (0 ≤ start ≤ stop)%Z →
  py_slice l start stop
  = take (Z.to_nat (Z.min stop (Z.of_nat (length l)))
          - Z.to_nat (Z.min start (Z.of_nat (length l))))
         (drop (Z.to_nat (Z.min start (Z.of_nat (length l)))) l).
Proof.
  intros Hle. unfold py_slice, slice_index.
  rewrite !decide_False by lia. f_equal. lia.
Qed.

Lemma py_slice_page {A} (l : list A) offset limit :
  (0 ≤ offset)%Z → (0 ≤ limit)%Z →
  py_slice l offset (offset + limit)
  = take (Z.to_nat limit) (drop (Z.to_nat offset) l).
Proof.
  intros Hoffset Hlimit. rewrite py_slice_ordered by lia.
  destruct (decide (offset ≤ Z.of_nat (length l))%Z) as [Hin|Hout].
  - rewrite (Z.min_l offset) by done.
    destruct (decide (offset + limit ≤ Z.of_nat (length l))%Z).
    + rewrite Z.min_l by done. f_equal. lia.
    + rewrite Z.min_r by lia.
      rewrite !take_ge; [done | rewrite length_drop; lia..].
  - rewrite !drop_ge by lia. by rewrite !take_nil.
Qed.

(** *** Lookups of the hits *)

Lemma getitems_found {V} (d : pydict V) ks :
  (∀ k, k ∈ ks → is_Some (get k d)) →
  ∃ vs, getitems d ks = Ok vs ∧ Forall2 (λ v k, get k d = Some v) vs ks.
Proof.
  induction ks as [|k ks IH]; intros Hks; simpl.
  - by exists [].
  - destruct (Hks k) as [v Hv]; [left |].
    destruct IH as (vs & -> & Hvs); [intros k' Hk'; apply Hks; by right |].
    unfold getitem. rewrite Hv. simpl. exists (v :: vs).
    split; [done | by constructor].
Qed.

(** *** The result of a search *)

Lemma filter_all {A} (P : A → Prop) `{!∀ x, Decision (P x)} (l : list A) :
  (∀ x, P x) → filter P l = l.
Proof.
  intros HP. induction l as [|x l IH]; [done |].
  by rewrite filter_cons_True, IH.
Qed.

Lemma keys_filter_NoDup {V} (P : string * V → Prop) `{!∀ x, Decision (P x)}
    (d : pydict V) :
  NoDup (keys d) → NoDup (keys (filter P d)).
Proof.
  unfold keys. intros Hnd. eapply sublist_NoDup; [exact Hnd | apply fmap_sublist, sublist_filter].
Qed.

Lemma search_scored self index_uid index query filters facets sort
    limit offset (sc : document → R) :
  indexes self !! index_uid = Some index →
  (∀ doc_id doc,
     _bm25_score self index_uid (_tokenize query) doc_id doc = Ok (sc doc)) →
  let documents := select_documents (db self) index_uid in
  let kept := survivors sc (default [] filters) documents in
  let sorted_docs := sorted_by_score (score_item sc <$> kept) in
  ∃ hits,
    search self index_uid query filters facets sort limit offset
    = Ok (mkSearchResult index_uid query hits (length kept)
            match default [] facets with
            | [] => []
            | _ => _compute_facets documents (default [] facets)
            end)
    ∧ Forall2 (λ hit item, (item.1, hit) ∈ documents)
              hits (py_slice sorted_docs offset (offset + limit)).
Proof.
  intros Hidx Hsc documents kept sorted_docs.
  pose proof (select_documents_NoDup (db self) index_uid) as Hnd.
  fold documents in Hnd.
  assert (Hin : ∀ kv, kv ∈ filter (λ kv, (0 < sc kv.2)%R) documents →
                      get kv.1 documents = Some kv.2).
  { intros [k v] [_ Hkv]%list_elem_of_filter. by apply get_elem_NoDup. }
  assert (Hscores :
    (scores ← score_documents self index_uid (_tokenize query) documents [];
     match default [] filters with
     | [] => Ok scores
     | _ => _apply_filters scores documents (default [] filters)
     end) = Ok (score_item sc <$> kept)).
  { rewrite (score_documents_scored _ _ _ sc) by done. simpl.
    unfold kept, survivors.
    destruct (default [] filters) as [|f fs] eqn:Hf.
    - by rewrite (filter_all (λ kv : string * document,
                                _matches_filters kv.2 [] = true)).
    - unfold _apply_filters.
      rewrite apply_filters_loop_kept; [done | done |].
      simpl. by apply keys_filter_NoDup. }
  assert (Hkeys : ∀ k, k ∈ (py_slice sorted_docs offset (offset + limit)).*1 →
                       is_Some (get k documents)).
  { intros k ([k' s] & -> & Hitem)%list_elem_of_fmap.
    apply py_slice_subseteq in Hitem. unfold sorted_docs in Hitem.
    rewrite sorted_by_score_perm in Hitem.
    apply list_elem_of_fmap in Hitem as (kv & [= -> ->] & Hkv).
    apply list_elem_of_filter in Hkv as [_ Hkv]. simpl.
    rewrite (Hin kv Hkv). eauto. }
  destruct (getitems_found documents _ Hkeys) as (hits & Hhits & Hall).
  exists hits. split.
  - unfold search. rewrite Hidx. cbv zeta.
    rewrite (dict_of_rows_NoDup (select_documents (db self) index_uid))
      by exact Hnd.
    fold documents.
    destruct (score_documents self index_uid (_tokenize query) documents [])
      as [scores|e]; [| done].
    simpl in Hscores. simpl. rewrite Hscores. simpl.
    fold kept. fold sorted_docs. rewrite Hhits. simpl.
    unfold sorted_docs. rewrite sorted_by_score_length, length_fmap.
    by destruct (default [] facets).
  - apply Forall2_fmap_r in Hall.
    eapply Forall2_impl; [exact Hall |].
    intros hit item Hget. by apply get_Some_elem.
Qed.

Lemma filter_none {A} (P : A → Prop) `{!∀ x, Decision (P x)} (l : list A) :
  (∀ x, ¬ P x) → filter P l = [].
Proof.
  intros HP. induction l as [|x l IH]; [done |].
  by rewrite filter_cons_False.
Qed.

Lemma py_slice_nil {A} start stop : py_slice (@nil A) start stop = [].
Proof. unfold py_slice. by rewrite drop_nil, take_nil. Qed.

(** C6: [total] is the number of documents of the index whose score is
    positive and that pass the filters, whatever [limit] and [offset];
    the hits are the documents of the slice [offset : offset + limit] of
    the survivors sorted by descending score: for an offset and a limit
    that are not negative, the documents stored under the ids of the
    first [limit] items after the first [offset] ones; an [offset] at or
    beyond the number of survivors gives no hit, no exception, and the
    [total] of the same search with [offset = 0]. *)
Theorem search_total_and_pagination self index_uid index query filters facets
    sort limit offset :
  indexes self !! index_uid = Some index →
  (0 ≤ total_documents index)%Z →
  let documents := select_documents (db self) index_uid in
  let terms := _tokenize query in
  let sc := bm25_sum (db self) index_uid index terms in
  let kept :=
    filter (λ kv, _matches_filters kv.2 (default [] filters) = true)
           (filter (λ kv, (0 < sc kv.2)%R) documents) in
  let sorted_docs := sorted_by_score (score_item sc <$> kept) in
  (∀ doc_id doc, _bm25_score self index_uid terms doc_id doc = Ok (sc doc))
  ∧ sorted_docs ≡ₚ score_item sc <$> kept
  ∧ StronglySorted (λ x y, (y.2 <= x.2)%R) sorted_docs
  ∧ ∃ r,
      search self index_uid query filters facets sort limit offset = Ok r
      ∧ total r = length kept
      ∧ Forall2 (λ hit item, (item.1, hit) ∈ documents)
                (hits r) (py_slice sorted_docs offset (offset + limit))
      ∧ ((0 ≤ offset)%Z → (0 ≤ limit)%Z →
         Forall2 (λ hit item,
                    index_documents (db self) !! (index_uid, item.1)
                    = Some hit)
                 (hits r)
                 (take (Z.to_nat limit) (drop (Z.to_nat offset) sorted_docs)))
      ∧ ((Z.of_nat (length sorted_docs) ≤ offset)%Z →
         hits r = []
         ∧ ∃ r0,
             search self index_uid query filters facets sort limit 0 = Ok r0
             ∧ total r0 = total r).
Proof.
  intros Hidx Hnonneg documents terms sc kept sorted_docs.
  assert (Hsc : ∀ doc_id doc,
             _bm25_score self index_uid terms doc_id doc = Ok (sc doc))
    by (intros; by apply _bm25_score_sum).
  split; [done |].
  split; [apply sorted_by_score_perm |].
  split; [apply sorted_by_score_sorted |].
  destruct (search_scored self index_uid index query filters facets sort
              limit offset sc Hidx Hsc) as (hits & Hsearch & Hhits).
  destruct (search_scored self index_uid index query filters facets sort
              limit 0 sc Hidx Hsc) as (hits0 & Hsearch0 & _).
  fold documents kept sorted_docs in Hhits.
  eexists. split; [exact Hsearch |]. simpl.
  split; [done |]. split; [exact Hhits |]. split.
  - intros Hoffset Hlimit. rewrite <- py_slice_page by done.
    eapply Forall2_impl; [exact Hhits |].
    intros hit item Hin. by apply select_documents_elem.
  - intros Hbeyond. split.
    + rewrite py_slice_beyond in Hhits by done.
      by apply Forall2_nil_inv_r in Hhits.
    + eexists. split; [exact Hsearch0 | done].
Qed.

(** *** The search for "dune" among the four books *)

Lemma insert_by_score_lt x y l :
  (x.2 < y.2)%R → insert_by_score x (y :: l) = y :: insert_by_score x l.
Proof. intros Hlt. simpl. by destruct (Rlt_dec x.2 y.2). Qed.

Lemma insert_by_score_ge x y l :
  (y.2 <= x.2)%R → insert_by_score x (y :: l) = x :: y :: l.
Proof. intros Hge. simpl. destruct (Rlt_dec x.2 y.2); [lra | done]. Qed.

Lemma four_books_documents :
  select_documents (db Examples.four_books) "books"
  = [("1", Examples.dune_world); ("2", Examples.dune_sequel);
     ("3", Examples.unrelated); ("4", Examples.short_title)].
Proof. vm_compute. reflexivity. Qed.

Lemma four_books_scores :
  let sc := bm25_sum (db Examples.four_books) "books"
              (with_stats 4 3 Examples.books_index) (_tokenize "dune") in
  sc Examples.dune_world = (60 / 29 * ln (4 / 3))%R
  ∧ sc Examples.dune_sequel = (60 / 29 * ln (4 / 3))%R
  ∧ sc Examples.unrelated = 0%R
  ∧ sc Examples.short_title = (3 * ln (4 / 3))%R.
Proof.
  assert (Htok : _tokenize "dune" = ["dune"]) by (vm_compute; reflexivity).
  assert (Hidf : idf_of (db Examples.four_books) "books"
                   (with_stats 4 3 Examples.books_index) "dune"
                 = ln (4 / 3)).
  { unfold idf_of.
    replace (document_frequency (db Examples.four_books) "books" "dune")
      with 3%nat by (vm_compute; reflexivity).
    replace (corpus_size (with_stats 4 3 Examples.books_index)) with 4%Z
      by (vm_compute; reflexivity).
    reflexivity. }
  assert (Hlong : ∀ title,
            count_term "dune" (_tokenize title) = 1%nat →
            length (_tokenize title) = 2%nat →
            contribution "id" "dune" (ln (4 / 3)) ("title", VStr title)
            = (60 / 29 * ln (4 / 3))%R).
  { intros title Htf Hlen. unfold contribution. cbn [fst snd py_str].
    rewrite Htf, Hlen. rewrite decide_True by (split; [done | lia]).
    unfold field_weight. rewrite decide_True by done. unfold k1, b.
    change (INR 1) with 1%R. change (INR 2) with (1 + 1)%R. lra. }
  assert (Hshort : ∀ title,
            count_term "dune" (_tokenize title) = 1%nat →
            length (_tokenize title) = 1%nat →
            contribution "id" "dune" (ln (4 / 3)) ("title", VStr title)
            = (3 * ln (4 / 3))%R).
  { intros title Htf Hlen. unfold contribution. cbn [fst snd py_str].
    rewrite Htf, Hlen. rewrite decide_True by (split; [done | lia]).
    unfold field_weight. rewrite decide_True by done. unfold k1, b.
    change (INR 1) with 1%R. lra. }
  cbv zeta. unfold bm25_sum. rewrite Htok.
  rewrite !fmap_cons, !fmap_nil, !sum_R_cons. change (sum_R []) with 0%R.
  rewrite Hidf.
  unfold Examples.dune_world, Examples.dune_sequel, Examples.unrelated,
    Examples.short_title.
  rewrite !fmap_cons, !fmap_nil, !sum_R_cons. change (sum_R []) with 0%R.
  change (primary_key (with_stats 4 3 Examples.books_index)) with "id".
  rewrite (Hlong "dune world"), (Hlong "dune sequel"), (Hshort "Dune")
    by (vm_compute; reflexivity).
  rewrite !contribution_skip
    by first [left; reflexivity | right; vm_compute; reflexivity].
  repeat split; lra.
Qed.

Lemma four_books_positive :
  let sc := bm25_sum (db Examples.four_books) "books"
              (with_stats 4 3 Examples.books_index) (_tokenize "dune") in
  (0 < 60 / 29 * ln (4 / 3) < 3 * ln (4 / 3))%R
  ∧ filter (λ kv : string * document, (0 < sc kv.2)%R)
           (select_documents (db Examples.four_books) "books")
    = [("1", Examples.dune_world); ("2", Examples.dune_sequel);
       ("4", Examples.short_title)].
Proof.
  intros sc. destruct four_books_scores as (H1 & H2 & H3 & H4).
  fold sc in H1, H2, H3, H4.
  assert (Hln : (0 < ln (4 / 3))%R)
    by (rewrite <- ln_1; apply ln_increasing; lra).
  split; [lra |]. rewrite four_books_documents.
  rewrite filter_cons_True by (cbn [snd]; rewrite H1; lra).
  rewrite filter_cons_True by (cbn [snd]; rewrite H2; lra).
  rewrite filter_cons_False by (cbn [snd]; rewrite H3; lra).
  rewrite filter_cons_True by (cbn [snd]; rewrite H4; lra).
  by rewrite filter_nil.
Qed.

Lemma four_books_sorted :
  let sc := bm25_sum (db Examples.four_books) "books"
              (with_stats 4 3 Examples.books_index) (_tokenize "dune") in
  let kept :=
    filter (λ kv : string * document,
              _matches_filters kv.2 (default [] None) = true)
           (filter (λ kv : string * document, (0 < sc kv.2)%R)
                   (select_documents (db Examples.four_books) "books")) in
  kept = [("1", Examples.dune_world); ("2", Examples.dune_sequel);
          ("4", Examples.short_title)]
  ∧ sorted_by_score (score_item sc <$> kept)
    = [("4", (3 * ln (4 / 3))%R); ("1", (60 / 29 * ln (4 / 3))%R);
       ("2", (60 / 29 * ln (4 / 3))%R)].
Proof.
  intros sc kept. destruct four_books_scores as (H1 & H2 & _ & H4).
  destruct four_books_positive as [Hlt Hpos]. fold sc in H1, H2, H4, Hpos.
  assert (Hkept : kept = [("1", Examples.dune_world);
                          ("2", Examples.dune_sequel); ("4", Examples.short_title)]).
  { unfold kept. rewrite Hpos.
    by rewrite (filter_all (λ kv : string * document,
                              _matches_filters kv.2 (default [] None) = true))
      by (intros; reflexivity). }
  split; [exact Hkept |]. rewrite Hkept.
  rewrite !fmap_cons, fmap_nil. unfold score_item. cbn [fst snd].
  rewrite H1, H2, H4. unfold sorted_by_score. cbn [foldr].
  change (insert_by_score ?x []) with [x].
  rewrite insert_by_score_lt by (cbn [snd]; lra).
  change (insert_by_score ?x []) with [x].
  rewrite insert_by_score_lt by (cbn [snd]; lra).
  by rewrite insert_by_score_ge by (cbn [snd]; lra).
Qed.

Lemma four_books_filtered :
  let sc := bm25_sum (db Examples.four_books) "books"
              (with_stats 4 3 Examples.books_index) (_tokenize "dune") in
  let kept :=
    filter (λ kv : string * document,
              _matches_filters kv.2 (default [] (Some [("id", VStr "2")]))
              = true)
           (filter (λ kv : string * document, (0 < sc kv.2)%R)
                   (select_documents (db Examples.four_books) "books")) in
  kept = [("2", Examples.dune_sequel)]
  ∧ sorted_by_score (score_item sc <$> kept)
    = [("2", (60 / 29 * ln (4 / 3))%R)].
Proof.
  intros sc kept. destruct four_books_scores as (_ & H2 & _).
  destruct four_books_positive as [_ Hpos]. fold sc in H2, Hpos.
  assert (Hkept : kept = [("2", Examples.dune_sequel)]).
  { unfold kept. rewrite Hpos.
    rewrite filter_cons_False by (vm_compute; discriminate).
    rewrite filter_cons_True by (vm_compute; reflexivity).
    rewrite filter_cons_False by (vm_compute; discriminate).
    by rewrite filter_nil. }
  split; [exact Hkept |]. rewrite Hkept.
  rewrite !fmap_cons, fmap_nil. unfold score_item. cbn [fst snd].
  by rewrite H2.
Qed.

(** Reads the hits off a page of known items: each is the document
    stored under the id of its item. *)
Ltac read_hits H :=
  repeat (apply Forall2_cons_inv_r in H as (? & ? & ? & H & ->));
  apply Forall2_nil_inv_r in H as ->;
  cbn [fst] in *;
  repeat match goal with
         | Hin : (_, _) ∈ select_documents _ _ |- _ =>
             apply select_documents_elem in Hin
         end;
  repeat match goal with
         | Hhit : index_documents _ !! _ = Some _ |- _ =>
             vm_compute in Hhit; injection Hhit as <-
         end.

(** The query "dune" on the four books: the book titled "Dune" alone
    scores highest, the two books with a second word tie and stay in the
    order of their ids, the fourth does not hold the term.  The first
    page of size 2, the page at offset 2, a page at the offset 3 (empty,
    with the same total), the offset -1 (counted from the end of the
    list) and the search filtered to the id "2". *)
Lemma search_total_and_pagination_witness :
  (∃ r,
     search Examples.four_books "books" "dune" None None None 2 0 = Ok r
     ∧ total r = 3%nat
     ∧ hits r = [Examples.short_title; Examples.dune_world])
  ∧ (∃ r,
       search Examples.four_books "books" "dune" None None None 2 2 = Ok r
       ∧ total r = 3%nat
       ∧ hits r = [Examples.dune_sequel])
  ∧ (∃ r,
       search Examples.four_books "books" "dune" None None None 20 3 = Ok r
       ∧ total r = 3%nat
       ∧ hits r = [])
  ∧ (∃ r,
       search Examples.four_books "books" "dune" None None None 20 (-1)
       = Ok r
       ∧ total r = 3%nat
       ∧ hits r = [Examples.dune_sequel])
  ∧ (∃ r,
       search Examples.four_books "books" "dune"
              (Some [("id", VStr "2")]) None None 20 0 = Ok r
       ∧ total r = 1%nat
       ∧ hits r = [Examples.dune_sequel]).
Proof.
  destruct four_books_sorted as [Hkept Hsorted].
  destruct four_books_filtered as [Hkept' Hsorted'].
  cbv zeta in Hkept, Hsorted, Hkept', Hsorted'.
  assert (Hidx : indexes Examples.four_books !! "books"
                 = Some (with_stats 4 3 Examples.books_index))
    by (vm_compute; reflexivity).
  assert (Hnonneg : (0 ≤ total_documents
                           (with_stats 4 3 Examples.books_index))%Z)
    by (simpl; lia).
  repeat split.
  - destruct (search_total_and_pagination Examples.four_books "books" _
                "dune" None None None 2 0 Hidx Hnonneg)
      as (_ & _ & _ & r & Hsearch & Htotal & _ & Hpage & _).
    exists r. split; [exact Hsearch |].
    rewrite Hkept in Htotal. split; [exact Htotal |].
    specialize (Hpage ltac:(lia) ltac:(lia)). rewrite Hsorted in Hpage.
    change (Z.to_nat 2) with 2%nat in Hpage.
    change (Z.to_nat 0) with 0%nat in Hpage. cbn [take drop] in Hpage.
    read_hits Hpage. reflexivity.
  - destruct (search_total_and_pagination Examples.four_books "books" _
                "dune" None None None 2 2 Hidx Hnonneg)
      as (_ & _ & _ & r & Hsearch & Htotal & _ & Hpage & _).
    exists r. split; [exact Hsearch |].
    rewrite Hkept in Htotal. split; [exact Htotal |].
    specialize (Hpage ltac:(lia) ltac:(lia)). rewrite Hsorted in Hpage.
    change (Z.to_nat 2) with 2%nat in Hpage. cbn [take drop] in Hpage.
    read_hits Hpage. reflexivity.
  - destruct (search_total_and_pagination Examples.four_books "books" _
                "dune" None None None 20 3 Hidx Hnonneg)
      as (_ & _ & _ & r & Hsearch & Htotal & _ & _ & Hbeyond).
    exists r. split; [exact Hsearch |].
    rewrite Hkept in Htotal. split; [exact Htotal |].
    apply Hbeyond. rewrite Hsorted. simpl. lia.
  - destruct (search_total_and_pagination Examples.four_books "books" _
                "dune" None None None 20 (-1) Hidx Hnonneg)
      as (_ & _ & _ & r & Hsearch & Htotal & Hslice & _).
    exists r. split; [exact Hsearch |].
    rewrite Hkept in Htotal. split; [exact Htotal |].
    assert (Hlast : ∀ x y z : string * R,
               py_slice [x; y; z] (-1) (-1 + 20) = [z]) by reflexivity.
    rewrite Hsorted, Hlast in Hslice.
    read_hits Hslice. reflexivity.
  - destruct (search_total_and_pagination Examples.four_books "books" _
                "dune" (Some [("id", VStr "2")]) None None 20 0 Hidx Hnonneg)
      as (_ & _ & _ & r & Hsearch & Htotal & _ & Hpage & _).
    exists r. split; [exact Hsearch |].
    rewrite Hkept' in Htotal. split; [exact Htotal |].
    specialize (Hpage ltac:(lia) ltac:(lia)). rewrite Hsorted' in Hpage.
    change (Z.to_nat 20) with 20%nat in Hpage.
    change (Z.to_nat 0) with 0%nat in Hpage. cbn [take drop] in Hpage.
    read_hits Hpage. reflexivity.
Defined.

(** C10: a query whose tokenization is empty scores every document 0, so
    no document is kept: [total] is 0 and there is no hit, whatever the
    filters, the limit and the offset. *)
Theorem search_without_terms self index_uid index query filters facets sort
    limit offset :
  indexes self !! index_uid = Some index →
  _tokenize query = [] →
  (∀ doc_id doc,
     _bm25_score self index_uid (_tokenize query) doc_id doc = Ok 0%R)
  ∧ ∃ r,
      search self index_uid query filters facets sort limit offset = Ok r
      ∧ total r = 0%nat
      ∧ hits r = [].
Proof.
  intros Hidx Hterms.
  assert (Hsc : ∀ doc_id doc,
             _bm25_score self index_uid (_tokenize query) doc_id doc = Ok 0%R)
    by (intros; by rewrite Hterms).
  split; [done |].
  destruct (search_scored self index_uid index query filters facets sort
              limit offset (λ _, 0%R) Hidx Hsc) as (hits & Hsearch & Hhits).
  unfold survivors in *.
  rewrite (filter_none (λ kv : string * document, (0 < 0)%R)) in Hsearch, Hhits
    by (intros _; lra).
  rewrite filter_nil in Hsearch, Hhits. simpl in Hsearch, Hhits.
  rewrite py_slice_nil in Hhits. apply Forall2_nil_inv_r in Hhits as ->.
  eexists. split; [exact Hsearch | done].
Qed.

Lemma _tokenize_nil_iff text :
  _tokenize text = []
  ↔ Forall (λ t, t ∈ stopwords ∨ (String.length t ≤ 2)%nat)
           (findall_words "" (lower text)).
Proof.
  unfold _tokenize. generalize (findall_words "" (lower text)) as tokens.
  induction tokens as [|t tokens IH].
  - split; [constructor | done].
  - rewrite Forall_cons, <- IH.
    destruct (decide (keep_token t)) as [Hk|Hk].
    + rewrite filter_cons_True by done. unfold keep_token in Hk.
      split; [done | intros [[?|?] _]; [tauto | lia]].
    + rewrite filter_cons_False by done. split; [| tauto].
      intros ?. split; [| done]. unfold keep_token in Hk.
      destruct (decide (t ∈ stopwords)); [tauto |]. right.
      destruct (decide (2 < String.length t)%nat); [tauto | lia].
Qed.

Lemma search_without_terms_witness :
  ∃ r,
    search Examples.three_books "books" "To be, or in it" None None None 20 0
    = Ok r
    ∧ total r = 0%nat ∧ hits r = [].
Proof.
  apply (search_without_terms Examples.three_books "books"
           (with_stats 3 2 Examples.books_index)); vm_compute; reflexivity.
Defined.

(** *** A worked search *)

(** The scenario of the spec: of the three books, the query "dune" keeps
    the two whose title has the term. *)
Example dune_scenario :
  ∃ r, search Examples.three_books "books" "dune" None None None 20 0 = Ok r
       ∧ total r = 2%nat.
Proof.
  set (idx := with_stats 3 2 Examples.books_index).
  set (sc := bm25_sum (db Examples.three_books) "books" idx (_tokenize "dune")).
  destruct (search_scored Examples.three_books "books" idx "dune" None None None 20 0 sc)
    as (hits & Hsearch & _).
  { vm_compute. reflexivity. }
  { intros. apply _bm25_score_sum; [vm_compute; reflexivity | simpl; lia]. }
  assert (Hidf : (0 < idf_of (db Examples.three_books) "books" idx "dune")%R).
  { unfold idf_of.
    replace (document_frequency (db Examples.three_books) "books" "dune") with 2%nat
      by (vm_compute; reflexivity).
    replace (corpus_size idx) with 3%Z by (vm_compute; reflexivity).
    change (Z.max 1 (Z.of_nat 2)) with 2%Z.
    rewrite <- ln_1. apply ln_increasing; lra. }
  assert (Htok : _tokenize "dune" = ["dune"]) by (vm_compute; reflexivity).
  assert (H1 : (0 < sc Examples.dune_world)%R).
  { unfold sc, bm25_sum. rewrite Htok. simpl fmap. unfold sum_R. simpl foldr.
    rewrite contribution_skip by (left; reflexivity).
    pose proof (contribution_pos "id" "dune" _ ("title", VStr "dune world") ltac:(done) ltac:(vm_compute; lia) Hidf).
    simpl in *. lra. }
  assert (H2 : (0 < sc Examples.dune_sequel)%R).
  { unfold sc, bm25_sum. rewrite Htok. simpl fmap. unfold sum_R. simpl foldr.
    rewrite contribution_skip by (left; reflexivity).
    pose proof (contribution_pos "id" "dune" _ ("title", VStr "dune sequel")
                  ltac:(done) ltac:(vm_compute; lia) Hidf).
    simpl in *. lra. }
  assert (H3 : sc Examples.unrelated = 0%R).
  { unfold sc, bm25_sum. rewrite Htok. simpl fmap. unfold sum_R. simpl foldr.
    rewrite !contribution_skip; [lra | right; vm_compute; reflexivity
                                | left; reflexivity]. }
  assert (Hdocs : select_documents (db Examples.three_books) "books"
                  = [("1", Examples.dune_world); ("2", Examples.dune_sequel);
                     ("3", Examples.unrelated)])
    by (vm_compute; reflexivity).
  rewrite Hdocs in Hsearch. unfold survivors in Hsearch.
  unfold from_option in Hsearch.
  rewrite (filter_all (λ kv : string * document,
                         _matches_filters kv.2 [] = true)) in Hsearch
    by (intros; reflexivity).
  rewrite filter_cons_True in Hsearch by exact H1.
  rewrite filter_cons_True in Hsearch by exact H2.
  rewrite filter_cons_False in Hsearch by (cbn [snd]; rewrite H3; lra).
  rewrite filter_nil in Hsearch.
  eexists. split; [exact Hsearch | reflexivity].
Qed.

(** ** Facets *)




Lemma compute_facets_other documents facets facet result :
  facet ∉ facets →
  get facet (fold_left (facet_step documents) facets result) = get facet result.
Proof.
  revert result. induction facets as [|f facets IH]; intros result Hnin.
  - done.
  - apply not_elem_of_cons in Hnin as [Hne Hnin]. simpl.
    rewrite IH by done. unfold facet_step. by rewrite get_set_ne.
Qed.

Lemma compute_facets_get documents facets facet result :
  facet ∈ facets →
  get facet (fold_left (facet_step documents) facets result)
  = Some (fold_left (count_facet facet) (values documents) []).
Proof.
  revert result. induction facets as [|f facets IH]; intros result Hin.
  - by apply elem_of_nil in Hin.
  - simpl. destruct (decide (facet ∈ facets)) as [Hrest|Hrest].
    + by apply IH.
    + apply elem_of_cons in Hin as [->|Hin]; [| done].
      rewrite compute_facets_other by done.
      unfold facet_step. apply get_set_eq.
Qed.



(** ** The counters stay non-negative *)

Lemma counters_nonneg_insert self db' index_uid index' :
  counters_nonneg self →
  (0 ≤ total_documents index')%Z →
  counters_nonneg (mkSearchEngine db' (<[index_uid := index']> (indexes self))).
Proof.
  intros Hall Hnew uid index. simpl. rewrite lookup_insert.
  case_decide; [by intros [= <-] | apply Hall].
Qed.

Lemma counters_nonneg_db self db' :
  counters_nonneg self → counters_nonneg (mkSearchEngine db' (indexes self)).
Proof. intros Hall uid index. apply Hall. Qed.

Lemma new_engine_counters_nonneg : counters_nonneg new_engine.
Proof. intros uid index. simpl. by rewrite lookup_empty. Qed.

Lemma create_index_counters_nonneg self now uid pk name :
  counters_nonneg self → counters_nonneg (create_index self now uid pk name).1.
Proof.
  intros Hall. unfold create_index, transaction.
  case_decide; [done |].
  destruct (insert_index _ _); simpl.
  - by apply counters_nonneg_insert.
  - by apply counters_nonneg_db.
Qed.

Lemma add_documents_counters_nonneg self now index_uid documents :
  counters_nonneg self →
  counters_nonneg (add_documents self now index_uid documents).1.
Proof.
  intros Hall. unfold add_documents, transaction.
  destruct (indexes self !! index_uid) as [index|] eqn:Hidx; [| done].
  destruct (add_each _ _ _ _); simpl.
  - apply counters_nonneg_insert; [done |]. simpl.
    specialize (Hall _ _ Hidx). lia.
  - by apply counters_nonneg_db.
Qed.

Lemma update_document_counters_nonneg self now index_uid doc_id partial_doc :
  counters_nonneg self →
  counters_nonneg (update_document self now index_uid doc_id partial_doc).1.
Proof.
  intros Hall. unfold update_document. case_decide; [| done].
  destruct (index_documents (db self) !! (index_uid, doc_id)); [| done].
  by apply add_documents_counters_nonneg.
Qed.

Lemma delete_document_counters_nonneg self now index_uid doc_id :
  counters_nonneg self →
  counters_nonneg (delete_document self now index_uid doc_id).1.
Proof.
  intros Hall. unfold delete_document.
  destruct (indexes self !! index_uid) as [index|] eqn:Hidx; [| done].
  apply counters_nonneg_insert; [done |]. simpl. lia.
Qed.

Lemma set_attrs_counters_nonneg f self index_uid attrs :
  (∀ index, total_documents (f attrs index) = total_documents index) →
  counters_nonneg self →
  counters_nonneg (set_attrs f self index_uid attrs).1.
Proof.
  intros Hf Hall. unfold set_attrs.
  destruct (indexes self !! index_uid) as [index|] eqn:Hidx; [| done].
  apply counters_nonneg_insert; [done |]. rewrite Hf. by eapply Hall.
Qed.

(** * Further properties of the code *)

(** ** What ingestion writes *)

Lemma store_postings_lookup index_uid doc_id field positions terms conn k :
  term_index (fold_left (store_posting index_uid doc_id field positions)
                        terms conn) !! k
  = if decide (k ∈ (λ term, (index_uid, term, doc_id, field)) <$> terms)
    then Some positions else term_index conn !! k.
Proof.
  revert conn. induction terms as [|t terms IH]; intros conn.
  - rewrite decide_False; [done | rewrite fmap_nil; apply not_elem_of_nil].
  - simpl fold_left. rewrite IH, fmap_cons. cbn [store_posting term_index].
    destruct (decide (k ∈ (λ term, (index_uid, term, doc_id, field)) <$> terms))
      as [Hin|Hnin].
    + rewrite decide_True; [done | by right].
    + rewrite lookup_insert. case_decide as Hk.
      * rewrite decide_True; [done | subst k; left].
      * rewrite decide_False; [done |].
        intros [->|?]%elem_of_cons; done.
Qed.

Lemma store_postings_tables index_uid doc_id field positions terms conn :
  indexes_table (fold_left (store_posting index_uid doc_id field positions)
                           terms conn) = indexes_table conn
  ∧ index_documents (fold_left (store_posting index_uid doc_id field positions)
                               terms conn) = index_documents conn.
Proof.
  revert conn. induction terms as [|t terms IH]; intros conn; [done |].
  simpl fold_left. destruct (IH (store_posting index_uid doc_id field
                                   positions conn t)) as [-> ->]. done.
Qed.

Lemma index_field_lookup index_uid doc_id pk conn fv k :
  term_index (index_field index_uid doc_id pk conn fv) !! k
  = if decide (k ∈ field_keys index_uid doc_id pk fv)
    then Some (field_positions fv) else term_index conn !! k.
Proof.
  unfold index_field, field_keys. case_decide.
  - rewrite decide_False; [done | apply not_elem_of_nil].
  - by rewrite store_postings_lookup.
Qed.

Lemma index_field_tables index_uid doc_id pk conn fv :
  indexes_table (index_field index_uid doc_id pk conn fv) = indexes_table conn
  ∧ index_documents (index_field index_uid doc_id pk conn fv)
    = index_documents conn.
Proof.
  unfold index_field. case_decide; [done | apply store_postings_tables].
Qed.

Lemma index_fields_tables index_uid doc_id pk doc conn :
  indexes_table (fold_left (index_field index_uid doc_id pk) doc conn)
  = indexes_table conn
  ∧ index_documents (fold_left (index_field index_uid doc_id pk) doc conn)
    = index_documents conn.
Proof.
  revert conn. induction doc as [|fv doc IH]; intros conn; [done |].
  simpl fold_left. destruct (IH (index_field index_uid doc_id pk conn fv))
    as [-> ->]. apply index_field_tables.
Qed.

Lemma field_keys_elem index_uid doc_id pk fv k :
  k ∈ field_keys index_uid doc_id pk fv
  ↔ fv.1 ≠ pk
    ∧ ∃ term, term ∈ _tokenize (py_str fv.2)
              ∧ k = (index_uid, term, doc_id, fv.1).
Proof.
  unfold field_keys. case_decide as Hpk.
  - split; [intros []%elem_of_nil | intros [? _]; done].
  - rewrite list_elem_of_fmap. split.
    + intros (t & -> & Ht). split; [done |]. exists t. split; [| done].
      by apply elem_of_elements, elem_of_list_to_set in Ht.
    + intros (_ & t & Ht & ->). exists t. split; [done |].
      by apply elem_of_elements, elem_of_list_to_set.
Qed.

(** Indexing the fields of a document leaves every key that no field
    writes as it was. *)
Lemma index_fields_other index_uid doc_id pk doc conn k :
  (∀ fv, fv ∈ doc → k ∉ field_keys index_uid doc_id pk fv) →
  term_index (fold_left (index_field index_uid doc_id pk) doc conn) !! k
  = term_index conn !! k.
Proof.
  revert conn. induction doc as [|fv doc IH]; intros conn Hout; [done |].
  simpl fold_left. rewrite IH by (intros; apply Hout; by right).
  rewrite index_field_lookup, decide_False; [done |]. apply Hout. left.
Qed.

Lemma index_fields_is_Some index_uid doc_id pk doc conn k :
  is_Some (term_index conn !! k) →
  is_Some (term_index (fold_left (index_field index_uid doc_id pk) doc conn)
           !! k).
Proof.
  revert conn. induction doc as [|fv doc IH]; intros conn Hk; [done |].
  simpl fold_left. apply IH. rewrite index_field_lookup.
  case_decide; [eauto | done].
Qed.

(** A field of a dictionary gets its postings with its own positions. *)
Lemma index_fields_written index_uid doc_id pk doc conn fv k :
  NoDup (keys doc) → fv ∈ doc → k ∈ field_keys index_uid doc_id pk fv →
  term_index (fold_left (index_field index_uid doc_id pk) doc conn) !! k
  = Some (field_positions fv).
Proof.
  unfold keys. revert conn.
  induction doc as [|fv0 doc IH]; intros conn Hnd Hin Hk.
  - by apply elem_of_nil in Hin.
  - rewrite fmap_cons in Hnd. apply NoDup_cons in Hnd as [Hfresh Hnd].
    simpl fold_left.
    apply elem_of_cons in Hin as [->|Hin]; [| by apply IH].
    rewrite index_fields_other.
    + rewrite index_field_lookup. by rewrite decide_True.
    + intros fv' Hfv' Hk'.
      apply field_keys_elem in Hk as (_ & t & _ & ->).
      apply field_keys_elem in Hk' as (_ & t' & _ & [= _ Hf]).
      apply Hfresh. rewrite Hf. apply list_elem_of_fmap. by exists fv'.
Qed.

Lemma add_document_Ok index_uid pk conn doc conn' :
  add_document index_uid pk conn doc = Ok conn' →
  doc_id_of pk doc ≠ ""
  ∧ conn' = fold_left (index_field index_uid (doc_id_of pk doc) pk) doc
              (store_document index_uid (doc_id_of pk doc) doc conn).
Proof. unfold add_document. case_decide; [done |]. by intros [= <-]. Qed.

Lemma add_document_tables index_uid pk conn doc conn' :
  add_document index_uid pk conn doc = Ok conn' →
  indexes_table conn' = indexes_table conn
  ∧ index_documents conn'
    = <[(index_uid, doc_id_of pk doc) := doc]> (index_documents conn).
Proof.
  intros [_ ->]%add_document_Ok.
  destruct (index_fields_tables index_uid (doc_id_of pk doc) pk doc
              (store_document index_uid (doc_id_of pk doc) doc conn))
    as [-> ->]. done.
Qed.

Lemma add_document_other index_uid pk conn doc conn' ku kt kd kf :
  add_document index_uid pk conn doc = Ok conn' →
  ku ≠ index_uid ∨ kd ≠ doc_id_of pk doc →
  term_index conn' !! (ku, kt, kd, kf) = term_index conn !! (ku, kt, kd, kf).
Proof.
  intros [_ ->]%add_document_Ok Hne. rewrite index_fields_other; [done |].
  intros fv _ (_ & t & _ & [= -> _ -> _])%field_keys_elem.
  destruct Hne; done.
Qed.

Lemma add_document_is_Some index_uid pk conn doc conn' k :
  add_document index_uid pk conn doc = Ok conn' →
  is_Some (term_index conn !! k) → is_Some (term_index conn' !! k).
Proof. intros [_ ->]%add_document_Ok Hk. by apply index_fields_is_Some. Qed.

Lemma add_document_written index_uid pk conn doc conn' fv k :
  add_document index_uid pk conn doc = Ok conn' →
  NoDup (keys doc) → fv ∈ doc →
  k ∈ field_keys index_uid (doc_id_of pk doc) pk fv →
  term_index conn' !! k = Some (field_positions fv).
Proof. intros [_ ->]%add_document_Ok ???. by apply index_fields_written. Qed.

Lemma add_each_cons_Ok index_uid pk doc rest conn conn' :
  add_each index_uid pk (doc :: rest) conn = Ok conn' →
  ∃ c, add_document index_uid pk conn doc = Ok c
       ∧ add_each index_uid pk rest c = Ok conn'.
Proof.
  simpl. destruct (add_document index_uid pk conn doc) as [c|e]; [| done].
  simpl. eauto.
Qed.

Lemma add_each_app_Ok index_uid pk l1 l2 conn conn' :
  add_each index_uid pk (l1 ++ l2) conn = Ok conn' →
  ∃ c, add_each index_uid pk l1 conn = Ok c
       ∧ add_each index_uid pk l2 c = Ok conn'.
Proof.
  revert conn. induction l1 as [|d l1 IH]; intros conn H; [by eexists |].
  rewrite <- app_comm_cons in H.
  apply add_each_cons_Ok in H as (c & Hd & H).
  destruct (IH c H) as (c' & H1 & H2). exists c'. split; [| done].
  simpl. by rewrite Hd.
Qed.

Lemma batch_last_cons pk doc rest doc_id :
  batch_last pk (doc :: rest) doc_id
  = match batch_last pk rest doc_id with
    | Some d => Some d
    | None => if decide (doc_id_of pk doc = doc_id) then Some doc else None
    end.
Proof.
  unfold batch_last. case_decide.
  - rewrite filter_cons_True by done. apply last_cons.
  - rewrite filter_cons_False by done. by destruct (last _).
Qed.

Lemma add_each_documents index_uid pk documents conn conn' :
  add_each index_uid pk documents conn = Ok conn' →
  indexes_table conn' = indexes_table conn
  ∧ (∀ doc_id,
       index_documents conn' !! (index_uid, doc_id)
       = match batch_last pk documents doc_id with
         | Some doc => Some doc
         | None => index_documents conn !! (index_uid, doc_id)
         end)
  ∧ (∀ uid doc_id,
       uid ≠ index_uid →
       index_documents conn' !! (uid, doc_id)
       = index_documents conn !! (uid, doc_id)).
Proof.
  revert conn. induction documents as [|doc rest IH]; intros conn H.
  - injection H as <-. done.
  - apply add_each_cons_Ok in H as (c & Hd & H).
    destruct (IH c H) as (Ht & Hsame & Hother).
    destruct (add_document_tables _ _ _ _ _ Hd) as [Ht' Hdocs].
    split; [congruence |]. split.
    + intros doc_id. rewrite Hsame, batch_last_cons.
      destruct (batch_last pk rest doc_id); [done |].
      rewrite Hdocs, lookup_insert.
      case_decide as Hk.
      * injection Hk as ->. by rewrite decide_True.
      * rewrite decide_False; [done | congruence].
    + intros uid doc_id Hne. rewrite Hother, Hdocs by done.
      rewrite lookup_insert_ne; [done | congruence].
Qed.

Lemma add_each_other index_uid pk documents conn conn' ku kt kd kf :
  add_each index_uid pk documents conn = Ok conn' →
  ku ≠ index_uid ∨ Forall (λ doc, doc_id_of pk doc ≠ kd) documents →
  term_index conn' !! (ku, kt, kd, kf) = term_index conn !! (ku, kt, kd, kf).
Proof.
  revert conn. induction documents as [|doc rest IH]; intros conn H Hne.
  - by injection H as <-.
  - apply add_each_cons_Ok in H as (c & Hd & H).
    rewrite (IH c H).
    + eapply add_document_other; [done |].
      destruct Hne as [?|Hall]; [by left | right].
      apply Forall_cons in Hall as [? _]. congruence.
    + destruct Hne as [?|Hall]; [by left | right].
      by apply Forall_cons in Hall as [_ ?].
Qed.

Lemma add_each_is_Some index_uid pk documents conn conn' :
  add_each index_uid pk documents conn = Ok conn' →
  (∀ k, is_Some (term_index conn !! k) → is_Some (term_index conn' !! k))
  ∧ (∀ k, is_Some (index_documents conn !! k) →
          is_Some (index_documents conn' !! k)).
Proof.
  revert conn. induction documents as [|doc rest IH]; intros conn H.
  - by injection H as <-.
  - apply add_each_cons_Ok in H as (c & Hd & H).
    destruct (IH c H) as [Hterms Hdocs]. split.
    + intros k Hk. eapply Hterms, add_document_is_Some; done.
    + intros k Hk. apply Hdocs.
      destruct (add_document_tables _ _ _ _ _ Hd) as [_ ->].
      rewrite lookup_insert. case_decide; [eauto | done].
Qed.

(** The engine after a batch that [add_each] accepts. *)
Lemma add_documents_Ok self now index_uid index documents conn' :
  indexes self !! index_uid = Some index →
  add_each index_uid (primary_key index) documents (db self) = Ok conn' →
  add_documents self now index_uid documents
  = (mkSearchEngine
       (update_stats index_uid
          (total_documents index + Z.of_nat (length documents)) now conn')
       (<[index_uid :=
            with_stats (total_documents index + Z.of_nat (length documents))
                       now index]> (indexes self)), Ok ()).
Proof.
  intros Hidx Heach. unfold add_documents, transaction.
  rewrite Hidx, Heach. done.
Qed.

(** X1: after a batch of valid documents has been added, [get_document]
    returns, for an id of the batch, the last document of the batch with
    that id, and for any other id what was stored before; the documents
    of the other indexes are untouched. *)
Theorem add_documents_then_get self now index_uid index documents :
  indexes self !! index_uid = Some index →
  Forall (λ doc, ¬ invalid_document (primary_key index) doc) documents →
  ∃ self',
    add_documents self now index_uid documents = (self', Ok ())
    ∧ (∀ doc_id,
         get_document self' index_uid doc_id
         = Ok match batch_last (primary_key index) documents doc_id with
              | Some doc => Some doc
              | None => index_documents (db self) !! (index_uid, doc_id)
              end)
    ∧ (∀ uid doc_id,
         uid ≠ index_uid →
         index_documents (db self') !! (uid, doc_id)
         = index_documents (db self) !! (uid, doc_id)).
Proof.
  intros Hidx Hvalid.
  destruct (add_each_valid index_uid (primary_key index) documents (db self)
              Hvalid) as [conn' Heach].
  eexists. split; [by apply add_documents_Ok |].
  destruct (add_each_documents _ _ _ _ _ Heach) as (_ & Hsame & Hother).
  split.
  - intros doc_id. unfold get_document. simpl.
    rewrite lookup_insert_eq. rewrite decide_True by eauto.
    by rewrite Hsame.
  - intros uid doc_id Hne. simpl. by apply Hother.
Qed.

Lemma add_documents_then_get_witness :
  ∃ self',
    add_documents Examples.one_book 3 "books"
                  [Examples.retitled; Examples.dune_sequel] = (self', Ok ())
    ∧ get_document self' "books" "1" = Ok (Some Examples.retitled)
    ∧ get_document self' "books" "2" = Ok (Some Examples.dune_sequel).
Proof.
  destruct (add_documents_then_get Examples.one_book 3 "books"
              (with_stats 1 2 Examples.books_index)
              [Examples.retitled; Examples.dune_sequel])
    as (self' & Hadd & Hget & _).
  - vm_compute. reflexivity.
  - repeat constructor; vm_compute; discriminate.
  - exists self'. split; [exact Hadd |].
    split; rewrite Hget; vm_compute; reflexivity.
Defined.

(** X2: after a batch of valid documents has been added, every term of
    every field other than the primary key of a document has a posting
    under the id of the document, holding the positions [0 .. n-1] of the
    [n] tokens of the field, provided no later document of the batch has
    the same id. *)
Theorem add_documents_writes_postings self now index_uid index
    before doc after field v term :
  indexes self !! index_uid = Some index →
  Forall (λ d, ¬ invalid_document (primary_key index) d)
         (before ++ doc :: after) →
  Forall (λ d, doc_id_of (primary_key index) d
               ≠ doc_id_of (primary_key index) doc) after →
  NoDup (keys doc) →
  (field, v) ∈ doc →
  field ≠ primary_key index →
  term ∈ _tokenize (py_str v) →
  term_index (db (add_documents self now index_uid
                    (before ++ doc :: after)).1)
    !! (index_uid, term, doc_id_of (primary_key index) doc, field)
  = Some (seq 0 (length (_tokenize (py_str v)))).
Proof.
  intros Hidx Hvalid Hlast Hnd Hfield Hpk Hterm.
  destruct (add_each_valid index_uid (primary_key index) _ (db self) Hvalid)
    as [conn' Heach].
  rewrite (add_documents_Ok _ _ _ index _ conn') by done. simpl.
  apply add_each_app_Ok in Heach as (c1 & _ & Heach).
  apply add_each_cons_Ok in Heach as (c2 & Hdoc & Hafter).
  rewrite (add_each_other _ _ _ _ _ _ _ _ _ Hafter) by (by right).
  rewrite (add_document_written _ _ _ _ _ (field, v) _ Hdoc); [done.. |].
  apply field_keys_elem. split; [done |]. by exists term.
Qed.

Lemma add_documents_writes_postings_witness :
  term_index (db (add_documents Examples.books 2 "books"
                    [Examples.dune_world; Examples.dune_sequel]).1)
    !! ("books", "sequel", "2", "title")
  = Some [0; 1]%nat.
Proof.
  apply (add_documents_writes_postings Examples.books 2 "books"
           Examples.books_index [Examples.dune_world] Examples.dune_sequel []
           "title" (VStr "dune sequel") "sequel").
  - vm_compute. reflexivity.
  - repeat constructor; vm_compute; discriminate.
  - constructor.
  - apply (bool_decide_unpack _). vm_compute. exact I.
  - right. left.
  - discriminate.
  - vm_compute. right. left.
Defined.

(** X3: [add_documents] removes nothing: a key that has a document or a
    posting before the call has one after it, and on an existing index the
    postings of every (index, document id) that is not an id of the batch
    are exactly as before. *)
Theorem add_documents_only_adds self now index_uid documents :
  let self' := (add_documents self now index_uid documents).1 in
  (∀ k, is_Some (index_documents (db self) !! k) →
        is_Some (index_documents (db self') !! k))
  ∧ (∀ k, is_Some (term_index (db self) !! k) →
          is_Some (term_index (db self') !! k))
  ∧ (∀ index uid term doc_id field,
       indexes self !! index_uid = Some index →
       uid ≠ index_uid
       ∨ Forall (λ doc, doc_id_of (primary_key index) doc ≠ doc_id)
                documents →
       term_index (db self') !! (uid, term, doc_id, field)
       = term_index (db self) !! (uid, term, doc_id, field)).
Proof.
  unfold add_documents, transaction.
  destruct (indexes self !! index_uid) as [index|] eqn:Hidx; [| done].
  destruct (add_each index_uid (primary_key index) documents (db self))
    as [conn'|e] eqn:Heach; simpl; [| done].
  destruct (add_each_is_Some _ _ _ _ _ Heach) as [Hterms Hdocs].
  split; [done |]. split; [done |].
  intros index' uid term doc_id field [= <-] Hne.
  by eapply add_each_other.
Qed.

Lemma add_documents_only_adds_witness :
  term_index (db (add_documents Examples.one_book 3 "books"
                    [Examples.dune_sequel]).1)
    !! ("books", "dune", "1", "title")
  = term_index (db Examples.one_book) !! ("books", "dune", "1", "title").
Proof.
  destruct (add_documents_only_adds Examples.one_book 3 "books"
              [Examples.dune_sequel]) as (_ & _ & Hframe).
  apply (Hframe (with_stats 1 2 Examples.books_index)).
  - vm_compute. reflexivity.
  - right. repeat constructor. vm_compute. discriminate.
Defined.

(** X4: [add_documents] on a uid that is not registered raises the
    not-found [ValueError] and changes nothing; an empty batch on an
    existing index returns normally, stores nothing and keeps the counter,
    yet sets [updated_at] to the time of the call, in the registry and in
    the persisted row. *)
Theorem add_documents_absent_or_empty self now index_uid :
  (indexes self !! index_uid = None →
   ∀ documents,
     add_documents self now index_uid documents
     = (self, Raise (not_found index_uid)))
  ∧ (∀ index,
       indexes self !! index_uid = Some index →
       ∃ self',
         add_documents self now index_uid [] = (self', Ok ())
         ∧ index_documents (db self') = index_documents (db self)
         ∧ term_index (db self') = term_index (db self)
         ∧ indexes self' !! index_uid
           = Some (with_stats (total_documents index) now index)
         ∧ indexes_table (db self')
           = alter (with_stats (total_documents index) now) index_uid
                   (indexes_table (db self))).
Proof.
  split.
  - intros Hidx documents. unfold add_documents. by rewrite Hidx.
  - intros index Hidx. eexists. split.
    + by apply (add_documents_Ok _ _ _ index [] (db self)).
    + simpl. rewrite Z.add_0_r. rewrite lookup_insert_eq. done.
Qed.

Lemma add_documents_absent_or_empty_witness :
  add_documents Examples.books 9 "films" [Examples.dune_world]
  = (Examples.books, Raise (not_found "films"))
  ∧ ∃ self',
      add_documents Examples.one_book 9 "books" [] = (self', Ok ())
      ∧ indexes self' !! "books"
        = Some (with_stats 1 9 Examples.books_index).
Proof.
  split.
  - apply (add_documents_absent_or_empty Examples.books 9 "films").
    vm_compute. reflexivity.
  - destruct (add_documents_absent_or_empty Examples.one_book 9 "books")
      as [_ Hempty].
    destruct (Hempty (with_stats 1 2 Examples.books_index))
      as (self' & Hadd & _ & _ & Hidx & _).
    + vm_compute. reflexivity.
    + exists self'. split; [exact Hadd | exact Hidx].
Defined.

(** ** Deletion *)

Lemma filter_nil_Forall {A} (P : A → Prop) `{!∀ x, Decision (P x)}
    (l : list A) :
  Forall (λ x, ¬ P x) l → filter P l = [].
Proof.
  induction 1 as [|x l Hx _ IH]; [done |]. by rewrite filter_cons_False.
Qed.

(** X5: after [delete_document] on an existing index the document is
    gone and no posting of that (index, document id) is left; every other
    document and every posting of another document is as before.  On a
    uid that is not registered the call raises the not-found [ValueError]
    and changes nothing. *)
Theorem delete_document_removes self now index_uid doc_id :
  (indexes self !! index_uid = None →
   delete_document self now index_uid doc_id
   = (self, Raise (not_found index_uid)))
  ∧ (is_Some (indexes self !! index_uid) →
     let self' := (delete_document self now index_uid doc_id).1 in
     get_document self' index_uid doc_id = Ok None
     ∧ postings_of (db self') index_uid doc_id = []
     ∧ (∀ k, k ≠ (index_uid, doc_id) →
             index_documents (db self') !! k = index_documents (db self) !! k)
     ∧ (∀ uid term id field,
          uid ≠ index_uid ∨ id ≠ doc_id →
          term_index (db self') !! (uid, term, id, field)
          = term_index (db self) !! (uid, term, id, field))).
Proof.
  unfold delete_document. split.
  - by intros ->.
  - intros [index Hidx]. rewrite Hidx. simpl. repeat split.
    + unfold get_document. simpl. rewrite lookup_insert_eq.
      rewrite decide_True by eauto. by rewrite lookup_delete_eq.
    + unfold postings_of. simpl. rewrite filter_nil_Forall; [done |].
      apply list.Forall_forall. intros [[[[u t] d] f] pos] Hin. simpl.
      apply elem_of_map_to_list in Hin.
      apply map_lookup_filter_Some in Hin as [_ Hne]. done.
    + intros k Hk. by rewrite lookup_delete_ne.
    + intros uid term id field Hne.
      destruct (term_index (db self) !! (uid, term, id, field)) as [pos|]
        eqn:Hlook.
      * apply map_lookup_filter_Some. split; [done |]. simpl.
        intros [-> ->]. destruct Hne; done.
      * apply map_lookup_filter_None. by left.
Qed.

Lemma delete_document_removes_witness :
  let self' := (delete_document Examples.three_books 3 "books" "1").1 in
  get_document self' "books" "1" = Ok None
  ∧ postings_of (db self') "books" "1" = []
  ∧ get_document self' "books" "2" = Ok (Some Examples.dune_sequel).
Proof.
  destruct (delete_document_removes Examples.three_books 3 "books" "1")
    as [_ Hdel].
  destruct Hdel as (Hget & Hpost & _ & _).
  - vm_compute. eauto.
  - split; [exact Hget |]. split; [exact Hpost |].
    vm_compute. reflexivity.
Defined.

(** ** Updates *)

Lemma get_update {V} (k : string) (d other : pydict V) :
  NoDup (keys other) →
  get k (update d other)
  = match get k other with Some v => Some v | None => get k d end.
Proof.
  unfold update, keys. revert d.
  induction other as [|[k0 v0] other IH]; intros d Hnd; [done |].
  rewrite fmap_cons in Hnd. simpl in Hnd.
  apply NoDup_cons in Hnd as [Hfresh Hnd].
  simpl fold_left. rewrite IH by done. simpl get.
  case_decide as Hk.
  - subst k0. apply get_None_keys in Hfresh. rewrite Hfresh.
    apply get_set_eq.
  - destruct (get k other); [done |]. by apply get_set_ne.
Qed.

Lemma batch_last_singleton pk doc :
  batch_last pk [doc] (doc_id_of pk doc) = Some doc.
Proof. unfold batch_last. by rewrite filter_cons_True. Qed.

Lemma batch_last_singleton_ne pk doc doc_id :
  doc_id_of pk doc ≠ doc_id → batch_last pk [doc] doc_id = None.
Proof. intros Hne. unfold batch_last. by rewrite filter_cons_False. Qed.

(** X6: [update_document] raises the not-found [ValueError] of the index
    when the uid is not registered, that of the document when nothing is
    stored under the id, and the missing-primary-key [ValueError] when the
    merged document has no usable primary key; in each case nothing is
    changed. *)
Theorem update_document_errors self now index_uid doc_id partial_doc :
  (indexes self !! index_uid = None →
   update_document self now index_uid doc_id partial_doc
   = (self, Raise (not_found index_uid)))
  ∧ (is_Some (indexes self !! index_uid) →
     index_documents (db self) !! (index_uid, doc_id) = None →
     update_document self now index_uid doc_id partial_doc
     = (self, Raise (document_not_found doc_id)))
  ∧ (∀ index doc,
       indexes self !! index_uid = Some index →
       index_documents (db self) !! (index_uid, doc_id) = Some doc →
       invalid_document (primary_key index) (update doc partial_doc) →
       update_document self now index_uid doc_id partial_doc
       = (self, Raise (missing_primary_key (primary_key index)))).
Proof.
  unfold update_document. repeat split.
  - intros Hidx. rewrite decide_False; [done |]. rewrite Hidx. by intros [].
  - intros Hidx Hdoc. rewrite decide_True by done. by rewrite Hdoc.
  - intros index doc Hidx Hdoc Hbad. rewrite decide_True by eauto.
    rewrite Hdoc. unfold add_documents, transaction. rewrite Hidx.
    rewrite add_each_invalid by (by left). simpl. by destruct self.
Qed.

Lemma update_document_errors_witness :
  update_document Examples.one_book 3 "films" "1" [("title", VStr "x")]
  = (Examples.one_book, Raise (not_found "films"))
  ∧ update_document Examples.one_book 3 "books" "7" [("title", VStr "x")]
    = (Examples.one_book, Raise (document_not_found "7"))
  ∧ update_document Examples.one_book 3 "books" "1" [("id", VStr "")]
    = (Examples.one_book, Raise (missing_primary_key "id")).
Proof.
  destruct (update_document_errors Examples.one_book 3 "films" "1"
              [("title", VStr "x")]) as (H1 & _ & _).
  destruct (update_document_errors Examples.one_book 3 "books" "7"
              [("title", VStr "x")]) as (_ & H2 & _).
  destruct (update_document_errors Examples.one_book 3 "books" "1"
              [("id", VStr "")]) as (_ & _ & H3).
  split; [| split].
  - apply H1. vm_compute. reflexivity.
  - apply H2; vm_compute; eauto.
  - apply (H3 (with_stats 1 2 Examples.books_index) Examples.dune_world);
      vm_compute; reflexivity.
Defined.

(** X7: [update_document] on a stored document writes the merge of the
    document with the partial one: a key of the partial document takes its
    value, every other key keeps the stored one.  The merge is stored
    under the id it stringifies to; when that differs from the id asked
    for, the document under the old id stays as it was.  The counter
    [total_documents] grows by one and [updated_at] is the time of the
    call. *)
Theorem update_document_merges self now index_uid index doc_id doc
    partial_doc :
  indexes self !! index_uid = Some index →
  index_documents (db self) !! (index_uid, doc_id) = Some doc →
  NoDup (keys partial_doc) →
  let merged := update doc partial_doc in
  let new_id := doc_id_of (primary_key index) merged in
  new_id ≠ "" →
  (∀ k, get k merged
        = match get k partial_doc with
          | Some v => Some v
          | None => get k doc
          end)
  ∧ (get (primary_key index) partial_doc = None →
     new_id = doc_id_of (primary_key index) doc)
  ∧ ∃ self',
      update_document self now index_uid doc_id partial_doc = (self', Ok ())
      ∧ get_document self' index_uid new_id = Ok (Some merged)
      ∧ (new_id ≠ doc_id →
         get_document self' index_uid doc_id = Ok (Some doc))
      ∧ indexes self' !! index_uid
        = Some (with_stats (total_documents index + 1) now index).
Proof.
  intros Hidx Hdoc Hnd merged new_id Hvalid.
  split; [intros k; by apply get_update |].
  split.
  { intros Hpk. unfold new_id, doc_id_of, merged.
    by rewrite get_update, Hpk. }
  destruct (add_each_valid index_uid (primary_key index) [merged] (db self))
    as [conn' Heach].
  { constructor; [| constructor]. by rewrite invalid_document_doc_id. }
  eexists. split.
  { unfold update_document. rewrite decide_True by eauto. rewrite Hdoc.
    by apply (add_documents_Ok _ _ _ index _ conn'). }
  destruct (add_each_documents _ _ _ _ _ Heach) as (_ & Hsame & _).
  unfold get_document. simpl. rewrite lookup_insert_eq.
  rewrite !decide_True by eauto. rewrite !Hsame.
  split; [by rewrite batch_last_singleton |].
  split; [| done].
  intros Hne. by rewrite batch_last_singleton_ne, Hdoc.
Qed.

Lemma update_document_merges_witness :
  ∃ self',
    update_document Examples.one_book 3 "books" "1" [("id", VStr "5")]
    = (self', Ok ())
    ∧ get_document self' "books" "5"
      = Ok (Some [("id", VStr "5"); ("title", VStr "dune world")])
    ∧ get_document self' "books" "1" = Ok (Some Examples.dune_world)
    ∧ indexes self' !! "books" = Some (with_stats 2 3 Examples.books_index).
Proof.
  destruct (update_document_merges Examples.one_book 3 "books"
              (with_stats 1 2 Examples.books_index) "1" Examples.dune_world
              [("id", VStr "5")])
    as (_ & _ & self' & Hupd & Hnew & Hold & Hidx).
  - vm_compute. reflexivity.
  - vm_compute. reflexivity.
  - apply (bool_decide_unpack _). vm_compute. exact I.
  - vm_compute. discriminate.
  - exists self'. split; [exact Hupd |]. split; [exact Hnew |].
    split; [| exact Hidx]. apply Hold. vm_compute. discriminate.
Defined.

(** ** Stored documents and their ids *)

Lemma store_ok_registry self db' index_uid index index' :
  store_ok self →
  indexes self !! index_uid = Some index →
  primary_key index' = primary_key index →
  (∀ k doc, index_documents db' !! k = Some doc →
            index_documents (db self) !! k = Some doc) →
  store_ok (mkSearchEngine db' (<[index_uid := index']> (indexes self))).
Proof.
  intros Hok Hidx Hpk Hsub uid doc_id doc Hdoc. simpl in *.
  destruct (Hok uid doc_id doc (Hsub _ _ Hdoc)) as (idx & Hreg & Hid & Hne).
  destruct (decide (index_uid = uid)) as [->|Hneq].
  - rewrite lookup_insert_eq. exists index'. split; [done |].
    rewrite Hpk. by replace index with idx by congruence.
  - rewrite lookup_insert_ne by done. eauto.
Qed.

Lemma add_each_all_valid index_uid pk documents conn conn' :
  add_each index_uid pk documents conn = Ok conn' →
  Forall (λ doc, doc_id_of pk doc ≠ "") documents.
Proof.
  revert conn. induction documents as [|doc rest IH]; intros conn H;
    [constructor |].
  apply add_each_cons_Ok in H as (c & Hd & H).
  constructor; [by apply add_document_Ok in Hd as [? _] | by eapply IH].
Qed.

Lemma batch_last_Some pk documents doc_id doc :
  batch_last pk documents doc_id = Some doc →
  doc ∈ documents ∧ doc_id_of pk doc = doc_id.
Proof.
  unfold batch_last. intros Hin%last_Some_elem_of.
  by apply list_elem_of_filter in Hin as [? ?].
Qed.

Lemma store_ok_add_documents self now index_uid documents :
  store_ok self → store_ok (add_documents self now index_uid documents).1.
Proof.
  intros Hok. unfold add_documents, transaction.
  destruct (indexes self !! index_uid) as [index|] eqn:Hidx; [| done].
  destruct (add_each index_uid (primary_key index) documents (db self))
    as [conn'|e] eqn:Heach; simpl; [| by destruct self].
  destruct (add_each_documents _ _ _ _ _ Heach) as (_ & Hsame & Hother).
  pose proof (add_each_all_valid _ _ _ _ _ Heach) as Hvalid.
  intros uid doc_id doc Hdoc. simpl in *.
  destruct (decide (uid = index_uid)) as [->|Hne].
  - rewrite lookup_insert_eq. eexists. split; [done |]. simpl.
    rewrite Hsame in Hdoc.
    destruct (batch_last (primary_key index) documents doc_id) as [d|] eqn:Hb.
    + injection Hdoc as ->. apply batch_last_Some in Hb as [Hin <-].
      split; [done |]. rewrite list.Forall_forall in Hvalid. by apply Hvalid.
    + destruct (Hok _ _ _ Hdoc) as (idx & Hreg & Hid & Hnonempty).
      by replace index with idx by congruence.
  - rewrite lookup_insert_ne by done. rewrite Hother in Hdoc by done.
    by apply Hok.
Qed.

Lemma store_ok_create_index self now uid pk name :
  store_ok self → store_ok (create_index self now uid pk name).1.
Proof.
  intros Hok. unfold create_index, transaction. case_decide as Hnew; [done |].
  unfold insert_index. repeat case_decide; simpl; try by destruct self.
  intros uid' doc_id doc Hdoc. simpl in *.
  destruct (Hok uid' doc_id doc Hdoc) as (idx & Hreg & Hid & Hne).
  destruct (decide (uid = uid')) as [->|Hneq].
  - destruct Hnew. eauto.
  - rewrite lookup_insert_ne by done. eauto.
Qed.

Lemma store_ok_delete_document self now index_uid doc_id :
  store_ok self → store_ok (delete_document self now index_uid doc_id).1.
Proof.
  intros Hok. unfold delete_document.
  destruct (indexes self !! index_uid) as [index|] eqn:Hidx; [| done].
  simpl. eapply store_ok_registry; [done.. |]. simpl.
  intros k doc Hdoc. by apply lookup_delete_Some in Hdoc as [_ ?].
Qed.

Lemma store_ok_set_attrs f self index_uid attrs :
  (∀ index, primary_key (f attrs index) = primary_key index) →
  store_ok self → store_ok (set_attrs f self index_uid attrs).1.
Proof.
  intros Hf Hok. unfold set_attrs.
  destruct (indexes self !! index_uid) as [index|] eqn:Hidx; [| done].
  simpl. eapply store_ok_registry; done.
Qed.

(** X8: in every engine built from a fresh one by the operations of the
    API, each stored document sits under the id its primary-key field
    stringifies to, that id is not empty, and its index is registered. *)
Theorem stored_documents_match_their_ids :
  store_ok new_engine
  ∧ ∀ self,
      store_ok self →
      (∀ now uid pk name, store_ok (create_index self now uid pk name).1)
      ∧ (∀ now uid documents, store_ok (add_documents self now uid documents).1)
      ∧ (∀ now uid doc_id partial_doc,
           store_ok (update_document self now uid doc_id partial_doc).1)
      ∧ (∀ now uid doc_id, store_ok (delete_document self now uid doc_id).1)
      ∧ (∀ uid attrs,
           store_ok (set_searchable_attrs self uid attrs).1
           ∧ store_ok (set_filterable_attrs self uid attrs).1
           ∧ store_ok (set_sortable_attrs self uid attrs).1).
Proof.
  split.
  - intros uid doc_id doc Hdoc. simpl in Hdoc.
    by rewrite lookup_empty in Hdoc.
  - intros self Hok. repeat split.
    + intros. by apply store_ok_create_index.
    + intros. by apply store_ok_add_documents.
    + intros now uid doc_id partial_doc. unfold update_document.
      case_decide; [| done].
      destruct (index_documents (db self) !! (uid, doc_id)); [| done].
      by apply store_ok_add_documents.
    + intros. by apply store_ok_delete_document.
    + by apply store_ok_set_attrs.
    + by apply store_ok_set_attrs.
    + by apply store_ok_set_attrs.
Qed.

Lemma stored_documents_match_their_ids_witness :
  store_ok Examples.three_books.
Proof.
  destruct stored_documents_match_their_ids as [Hnew Hstep].
  destruct (Hstep new_engine Hnew) as (Hcreate & _).
  destruct (Hstep _ (Hcreate 1%Z "books" "id" None)) as (_ & Hadd & _).
  apply Hadd.
Defined.

(** ** The registry and the table [indexes] *)

Lemma alter_lookup_insert (f : Index → Index) (m : gmap string Index)
    index_uid index :
  m !! index_uid = Some index →
  alter f index_uid m = <[index_uid := f index]> m.
Proof.
  intros Hidx. rewrite <- (insert_id m index_uid index) at 1 by done.
  apply alter_insert_eq.
Qed.

Lemma _load_indexes_table conn : _load_indexes conn = indexes_table conn.
Proof. apply list_to_map_to_list. Qed.

Lemma persisted_open_engine self : persisted self → open_engine (db self) = self.
Proof.
  unfold persisted, open_engine. intros Hp.
  rewrite _load_indexes_table, Hp. by destruct self.
Qed.

Lemma persisted_create_index self now uid pk name :
  persisted self → persisted (create_index self now uid pk name).1.
Proof.
  unfold persisted, create_index, transaction, insert_index. intros Hp.
  repeat case_decide; simpl; try done. by rewrite Hp.
Qed.

Lemma persisted_add_documents self now index_uid documents :
  persisted self → persisted (add_documents self now index_uid documents).1.
Proof.
  unfold persisted, add_documents, transaction. intros Hp.
  destruct (indexes self !! index_uid) as [index|] eqn:Hidx; [| done].
  destruct (add_each index_uid (primary_key index) documents (db self))
    as [conn'|e] eqn:Heach; simpl; [| done].
  destruct (add_each_documents _ _ _ _ _ Heach) as (-> & _ & _).
  rewrite Hp. by apply alter_lookup_insert.
Qed.

Lemma persisted_set_attrs f self index_uid attrs :
  persisted self → persisted (set_attrs f self index_uid attrs).1.
Proof.
  unfold persisted, set_attrs. intros Hp.
  destruct (indexes self !! index_uid) as [index|] eqn:Hidx; [| done].
  simpl. rewrite Hp. by apply alter_lookup_insert.
Qed.

(** X9: what [create_index], [add_documents], [update_document] and the
    three setters leave in the registry is what they leave in the table
    [indexes], so an engine opened on the database afterwards
    ([_load_indexes]) has the same registry. *)
Theorem registry_is_persisted :
  persisted new_engine
  ∧ ∀ self,
      persisted self →
      open_engine (db self) = self
      ∧ (∀ now uid pk name, persisted (create_index self now uid pk name).1)
      ∧ (∀ now uid documents,
           persisted (add_documents self now uid documents).1)
      ∧ (∀ now uid doc_id partial_doc,
           persisted (update_document self now uid doc_id partial_doc).1)
      ∧ (∀ uid attrs,
           persisted (set_searchable_attrs self uid attrs).1
           ∧ persisted (set_filterable_attrs self uid attrs).1
           ∧ persisted (set_sortable_attrs self uid attrs).1).
Proof.
  split; [done |]. intros self Hp. repeat split.
  - by apply persisted_open_engine.
  - intros. by apply persisted_create_index.
  - intros. by apply persisted_add_documents.
  - intros now uid doc_id partial_doc. unfold update_document.
    case_decide; [| done].
    destruct (index_documents (db self) !! (uid, doc_id)); [| done].
    by apply persisted_add_documents.
  - by apply persisted_set_attrs.
  - by apply persisted_set_attrs.
  - by apply persisted_set_attrs.
Qed.

Lemma registry_is_persisted_witness :
  open_engine (db Examples.three_books) = Examples.three_books.
Proof.
  destruct registry_is_persisted as [Hnew Hstep].
  destruct (Hstep new_engine Hnew) as (_ & Hcreate & _).
  destruct (Hstep _ (Hcreate 1%Z "books" "id" None)) as (_ & _ & Hadd & _).
  destruct (Hstep _ (Hadd 2%Z "books"
                       [Examples.dune_world; Examples.dune_sequel;
                        Examples.unrelated])) as (Hopen & _).
  exact Hopen.
Defined.

(** X10: [delete_document] changes the counter and the timestamp in the
    registry only: the row of the table [indexes] keeps the values from
    before the deletion, so an engine opened on the database afterwards
    has the registry from before the deletion, while the document and its
    postings are gone from the database. *)
Theorem delete_document_counter_not_persisted self now index_uid index
    doc_id :
  persisted self →
  indexes self !! index_uid = Some index →
  let self' := (delete_document self now index_uid doc_id).1 in
  indexes self' !! index_uid
  = Some (with_stats (Z.max 0 (total_documents index - 1)) now index)
  ∧ indexes (open_engine (db self')) = indexes self
  ∧ index_documents (db (open_engine (db self'))) !! (index_uid, doc_id)
    = None.
Proof.
  unfold persisted. intros Hp Hidx. unfold delete_document. rewrite Hidx.
  simpl. rewrite lookup_insert_eq, _load_indexes_table. simpl.
  by rewrite lookup_delete_eq.
Qed.

Lemma delete_document_counter_not_persisted_witness :
  let self' := (delete_document Examples.three_books 3 "books" "1").1 in
  total_documents <$> indexes self' !! "books" = Some 2%Z
  ∧ total_documents <$> indexes (open_engine (db self')) !! "books"
    = Some 3%Z.
Proof.
  destruct (delete_document_counter_not_persisted Examples.three_books 3
              "books" (with_stats 3 2 Examples.books_index) "1")
    as (Hreg & Hopen & _).
  - vm_compute. reflexivity.
  - vm_compute. reflexivity.
  - split.
    + rewrite Hreg. reflexivity.
    + rewrite Hopen. vm_compute. reflexivity.
Defined.

(** ** Creating an index *)

(** X11: [create_index] on a uid that is not registered, with a name no
    row has, registers and persists an index with the counter at 0, both
    timestamps at the time of the call, the default ranking rules and
    empty attribute lists; the name is the uid when no name, or the empty
    name, is given.  A registered uid raises the already-exists
    [ValueError], a name that a row already has makes the [INSERT] fail
    with an [IntegrityError], and in both cases nothing is changed. *)
Theorem create_index_registers_or_fails self now uid pk name :
  let index :=
    mkIndex uid (effective_name uid name) pk now now 0 []
            default_ranking_rules [] [] [] in
  (is_Some (indexes self !! uid) →
   create_index self now uid pk name
   = (self, Raise (ValueError ("Index " ++ uid ++ " already exists"))))
  ∧ (indexes self !! uid = None →
     indexes_table (db self) !! uid = None →
     name_taken (effective_name uid name) (indexes_table (db self)) →
     create_index self now uid pk name
     = (self,
        Raise (IntegrityError "UNIQUE constraint failed: indexes.name")))
  ∧ (indexes self !! uid = None →
     indexes_table (db self) !! uid = None →
     ¬ name_taken (effective_name uid name) (indexes_table (db self)) →
     create_index self now uid pk name
     = (mkSearchEngine
          (mkDatabase (<[uid := index]> (indexes_table (db self)))
                      (index_documents (db self)) (term_index (db self)))
          (<[uid := index]> (indexes self)), Ok index)).
Proof.
  unfold create_index, transaction, insert_index, effective_name.
  repeat split.
  - intros Hreg. by rewrite decide_True.
  - intros Hreg Hrow Htaken. rewrite decide_False by (rewrite Hreg; by intros []).
    simpl. rewrite decide_False by (rewrite Hrow; by intros []).
    rewrite decide_True by done. simpl. by destruct self.
  - intros Hreg Hrow Hfree. rewrite decide_False by (rewrite Hreg; by intros []).
    simpl. rewrite decide_False by (rewrite Hrow; by intros []).
    rewrite decide_False by done. done.
Qed.

Lemma create_index_registers_or_fails_witness :
  create_index Examples.books 5 "books" "isbn" None
  = (Examples.books, Raise (ValueError "Index books already exists"))
  ∧ create_index Examples.books 5 "novels" "id" (Some "books")
    = (Examples.books,
       Raise (IntegrityError "UNIQUE constraint failed: indexes.name"))
  ∧ (create_index Examples.books 5 "films" "id" (Some "")).2
    = Ok (mkIndex "films" "films" "id" 5 5 0 [] default_ranking_rules
                  [] [] []).
Proof.
  destruct (create_index_registers_or_fails Examples.books 5 "books" "isbn"
              None) as (H1 & _ & _).
  destruct (create_index_registers_or_fails Examples.books 5 "novels" "id"
              (Some "books")) as (_ & H2 & _).
  destruct (create_index_registers_or_fails Examples.books 5 "films" "id"
              (Some "")) as (_ & _ & H3).
  split; [| split].
  - apply H1. vm_compute. eauto.
  - apply H2; [vm_compute; reflexivity.. |].
    apply (bool_decide_unpack _). vm_compute. exact I.
  - rewrite H3; [reflexivity | vm_compute; reflexivity.. |].
    apply (bool_decide_unpack _). vm_compute. exact I.
Defined.

(** ** More on search *)

Lemma hits_of_lookup documents hits (items : list (string * R)) :
  NoDup (keys documents) →
  Forall2 (λ hit item, (item.1, hit) ∈ documents) hits items →
  hits = hit_of documents <$> items.
Proof.
  intros Hnd. induction 1 as [|hit item hits items Hin _ IH]; [done |].
  rewrite fmap_cons, <- IH. f_equal. unfold hit_of.
  by rewrite (get_elem_NoDup _ _ _ Hnd Hin).
Qed.

(** The whole result of a search, for a score function [sc] that
    [_bm25_score] computes. *)
Lemma search_result self index_uid index query filters facets sort
    limit offset (sc : document → R) :
  indexes self !! index_uid = Some index →
  (∀ doc_id doc,
     _bm25_score self index_uid (_tokenize query) doc_id doc = Ok (sc doc)) →
  let documents := select_documents (db self) index_uid in
  let kept := survivors sc (default [] filters) documents in
  let sorted_docs := sorted_by_score (score_item sc <$> kept) in
  search self index_uid query filters facets sort limit offset
  = Ok (mkSearchResult index_uid query
          (hit_of documents <$> py_slice sorted_docs offset (offset + limit))
          (length kept)
          match default [] facets with
          | [] => []
          | _ => _compute_facets documents (default [] facets)
          end).
Proof.
  intros Hidx Hsc documents kept sorted_docs.
  destruct (search_scored self index_uid index query filters facets sort
              limit offset sc Hidx Hsc) as (hits & -> & Hhits).
  do 2 f_equal. apply hits_of_lookup; [| done].
  apply select_documents_NoDup.
Qed.

Lemma kept_item self index_uid (sc : document → R) filters item :
  let documents := select_documents (db self) index_uid in
  item ∈ sorted_by_score (score_item sc <$> survivors sc filters documents) →
  ∃ doc_id,
    item = (doc_id, sc (hit_of documents item))
    ∧ index_documents (db self) !! (index_uid, doc_id)
      = Some (hit_of documents item)
    ∧ (0 < sc (hit_of documents item))%R
    ∧ _matches_filters (hit_of documents item) filters = true.
Proof.
  intros documents Hitem. rewrite sorted_by_score_perm in Hitem.
  apply list_elem_of_fmap in Hitem as ([doc_id doc] & -> & Hkv).
  unfold survivors in Hkv.
  apply list_elem_of_filter in Hkv as [Hmatch Hkv].
  apply list_elem_of_filter in Hkv as [Hpos Hkv].
  assert (Hhit : hit_of documents (score_item sc (doc_id, doc)) = doc).
  { unfold hit_of, documents in *. simpl.
    by rewrite (get_elem_NoDup _ _ _ (select_documents_NoDup _ _) Hkv). }
  rewrite Hhit. exists doc_id. repeat split; try done.
  by apply select_documents_elem.
Qed.

Lemma sum_R_pos_elem (l : list R) :
  (0 < sum_R l)%R → ∃ x, x ∈ l ∧ (0 < x)%R.
Proof.
  induction l as [|x l IH]; [unfold sum_R; simpl; lra |].
  rewrite sum_R_cons. intros Hpos.
  destruct (Rlt_dec 0 x) as [Hx|Hx].
  - exists x. split; [left | done].
  - destruct IH as (y & Hy & Hypos); [lra |]. exists y. split; [by right | done].
Qed.

Lemma sum_R_nonpos (l : list R) :
  Forall (λ x, (x <= 0)%R) l → (sum_R l <= 0)%R.
Proof.
  induction 1 as [|x l Hx _ IH]; [unfold sum_R; simpl; lra |].
  rewrite sum_R_cons. lra.
Qed.

Lemma count_term_pos term terms :
  (0 < count_term term terms)%nat → term ∈ terms.
Proof.
  unfold count_term. intros Hpos.
  destruct (filter (λ t, t = term) terms) as [|t ts] eqn:Hf; [simpl in *; lia |].
  assert (Hin : t ∈ filter (λ t, t = term) terms) by (rewrite Hf; left).
  by apply list_elem_of_filter in Hin as [-> ?].
Qed.

Lemma bm25_sum_pos_mentions conn index_uid index terms doc :
  (0 < bm25_sum conn index_uid index terms doc)%R →
  mentions (primary_key index) terms doc.
Proof.
  unfold bm25_sum. intros (x & Hx & Hxpos)%sum_R_pos_elem.
  apply list_elem_of_fmap in Hx as (term & -> & Hterm).
  apply sum_R_pos_elem in Hxpos as (y & Hy & Hypos).
  apply list_elem_of_fmap in Hy as (fv & -> & Hfv).
  exists term, fv. unfold contribution in Hypos.
  case_decide as Hc; [| lra]. destruct Hc as [Hpk Htf].
  repeat split; try done. by apply count_term_pos.
Qed.

Lemma bm25_factor_nonneg (tf field_len : nat) :
  (0 <= (k1 + 1) * INR tf / (INR tf + k1 * (1 - b + b * INR field_len)))%R.
Proof.
  pose proof (pos_INR tf). pose proof (pos_INR field_len).
  unfold k1, b. apply Rmult_le_pos; [nra |].
  apply Rlt_le, Rinv_0_lt_compat. nra.
Qed.

Lemma field_weight_pos field : (0 < field_weight field)%R.
Proof. unfold field_weight. repeat case_decide; lra. Qed.

Lemma contribution_nonpos pk term idf fv :
  (idf <= 0)%R → (contribution pk term idf fv <= 0)%R.
Proof.
  intros Hidf. unfold contribution. cbv zeta. case_decide; [| lra].
  pose proof (field_weight_pos fv.1) as Hw.
  pose proof (bm25_factor_nonneg
                (count_term term (_tokenize (py_str fv.2)))
                (length (_tokenize (py_str fv.2)))) as Hf.
  set (factor := ((k1 + 1) * _ / _)%R) in *.
  assert (0 <= field_weight fv.1 * factor)%R by (apply Rmult_le_pos; lra).
  rewrite (Rmult_comm (field_weight fv.1) idf), Rmult_assoc. nra.
Qed.

Lemma idf_of_nonpos conn index_uid index term :
  (0 ≤ total_documents index)%Z →
  (corpus_size index ≤ Z.of_nat (document_frequency conn index_uid term))%Z →
  (idf_of conn index_uid index term <= 0)%R.
Proof.
  intros Hnonneg Hdf. unfold idf_of.
  pose proof (corpus_size_pos index Hnonneg) as Hn.
  replace (Z.max 1 (Z.of_nat (document_frequency conn index_uid term)))
    with (Z.of_nat (document_frequency conn index_uid term)) by lia.
  destruct (decide (corpus_size index
                    = Z.of_nat (document_frequency conn index_uid term)))
    as [<-|Hne].
  - unfold Rdiv. rewrite Rinv_r; [rewrite ln_1; lra |].
    apply not_0_IZR. lia.
  - apply Rlt_le, ln_ratio_neg; lia.
Qed.

(** X12: every hit of a search is a document stored for the index, with
    a positive BM25 score, that passes the filters and has a query term
    among the tokens of a field other than the primary key; on a uid that
    is not registered the search raises the not-found [ValueError]. *)
Theorem search_hits_are_matching_documents self index_uid query filters
    facets sort limit offset :
  (indexes self !! index_uid = None →
   search self index_uid query filters facets sort limit offset
   = Raise (not_found index_uid))
  ∧ (∀ index,
       indexes self !! index_uid = Some index →
       (0 ≤ total_documents index)%Z →
       ∃ r,
         search self index_uid query filters facets sort limit offset = Ok r
         ∧ ∀ hit, hit ∈ hits r →
             (∃ doc_id,
                index_documents (db self) !! (index_uid, doc_id) = Some hit)
             ∧ (∃ score,
                  _bm25_score self index_uid (_tokenize query)
                              (doc_id_of (primary_key index) hit) hit
                  = Ok score
                  ∧ (0 < score)%R)
             ∧ _matches_filters hit (default [] filters) = true
             ∧ mentions (primary_key index) (_tokenize query) hit).
Proof.
  split.
  - intros Hidx. unfold search. by rewrite Hidx.
  - intros index Hidx Hnonneg.
    set (sc := bm25_sum (db self) index_uid index (_tokenize query)).
    assert (Hsc : ∀ doc_id doc,
               _bm25_score self index_uid (_tokenize query) doc_id doc
               = Ok (sc doc)) by (intros; by apply _bm25_score_sum).
    eexists. split; [by apply (search_result _ _ index _ _ _ _ _ _ sc) |].
    simpl. intros hit (item & -> & Hitem)%list_elem_of_fmap.
    apply py_slice_subseteq in Hitem.
    apply kept_item in Hitem as (doc_id & _ & Hdoc & Hpos & Hmatch).
    repeat split; eauto.
    by apply (bm25_sum_pos_mentions (db self) index_uid).
Qed.

Lemma search_hits_are_matching_documents_witness :
  search Examples.three_books "films" "dune" None None None 20 0
  = Raise (not_found "films")
  ∧ ∃ r,
      search Examples.three_books "books" "dune" None None None 20 0 = Ok r
      ∧ ∀ hit, hit ∈ hits r → mentions "id" ["dune"] hit.
Proof.
  destruct (search_hits_are_matching_documents Examples.three_books "films"
              "dune" None None None 20 0) as [Habsent _].
  destruct (search_hits_are_matching_documents Examples.three_books "books"
              "dune" None None None 20 0) as [_ Hhits].
  split.
  - apply Habsent. vm_compute. reflexivity.
  - destruct (Hhits (with_stats 3 2 Examples.books_index))
      as (r & Hsearch & Hall).
    + vm_compute. reflexivity.
    + simpl. lia.
    + exists r. split; [exact Hsearch |].
      intros hit Hhit. by destruct (Hall hit Hhit) as (_ & _ & _ & ?).
Defined.

(** X13: filters only remove results: the [total] of a search with
    filters is at most the [total] of the same search without them. *)
Theorem filters_only_shrink_total self index_uid index query filters facets
    sort limit offset :
  indexes self !! index_uid = Some index →
  (0 ≤ total_documents index)%Z →
  ∃ r r0,
    search self index_uid query (Some filters) facets sort limit offset = Ok r
    ∧ search self index_uid query None facets sort limit offset = Ok r0
    ∧ (total r ≤ total r0)%nat.
Proof.
  intros Hidx Hnonneg.
  set (sc := bm25_sum (db self) index_uid index (_tokenize query)).
  assert (Hsc : ∀ doc_id doc,
             _bm25_score self index_uid (_tokenize query) doc_id doc
             = Ok (sc doc)) by (intros; by apply _bm25_score_sum).
  eexists _, _.
  split; [by apply (search_result _ _ index _ _ _ _ _ _ sc) |].
  split; [by apply (search_result _ _ index _ _ _ _ _ _ sc) |].
  simpl. unfold survivors.
  rewrite (filter_all (λ kv : string * document,
                         _matches_filters kv.2 [] = true)) by done.
  apply length_filter.
Qed.

Lemma filters_only_shrink_total_witness :
  ∃ r r0,
    search Examples.three_books "books" "dune"
           (Some [("title", VStr "dune world")]) None None 20 0 = Ok r
    ∧ search Examples.three_books "books" "dune" None None None 20 0 = Ok r0
    ∧ (total r ≤ total r0)%nat.
Proof.
  apply (filters_only_shrink_total Examples.three_books "books"
           (with_stats 3 2 Examples.books_index)).
  - vm_compute. reflexivity.
  - simpl. lia.
Defined.

(** X14: when every query term has a posting in at least as many
    documents as the counter [total_documents] says the index holds (1 for
    an empty counter), no score is positive and the search returns
    nothing; so a term that occurs in every counted document, as in an
    index of one document, finds no document. *)
Theorem terms_in_every_document_find_nothing self index_uid index query
    filters facets sort limit offset :
  indexes self !! index_uid = Some index →
  (0 ≤ total_documents index)%Z →
  (∀ term,
     term ∈ _tokenize query →
     ((if decide (total_documents index = 0%Z) then 1
       else total_documents index)
      ≤ Z.of_nat (document_frequency (db self) index_uid term))%Z) →
  ∃ r,
    search self index_uid query filters facets sort limit offset = Ok r
    ∧ total r = 0%nat
    ∧ hits r = [].
Proof.
  intros Hidx Hnonneg Hdf.
  set (sc := bm25_sum (db self) index_uid index (_tokenize query)).
  assert (Hsc : ∀ doc_id doc,
             _bm25_score self index_uid (_tokenize query) doc_id doc
             = Ok (sc doc)) by (intros; by apply _bm25_score_sum).
  assert (Hnonpos : ∀ doc, (sc doc <= 0)%R).
  { intros doc. unfold sc, bm25_sum. apply sum_R_nonpos.
    apply list.Forall_forall. intros x (term & -> & Hterm)%list_elem_of_fmap.
    apply sum_R_nonpos, list.Forall_forall.
    intros y (fv & -> & _)%list_elem_of_fmap.
    apply contribution_nonpos, idf_of_nonpos; [done |]. by apply Hdf. }
  eexists. split; [by apply (search_result _ _ index _ _ _ _ _ _ sc) |].
  simpl. unfold survivors.
  rewrite (filter_none (λ kv : string * document, (0 < sc kv.2)%R)).
  - rewrite filter_nil. simpl. by rewrite py_slice_nil.
  - intros kv. specialize (Hnonpos kv.2). lra.
Qed.

Lemma terms_in_every_document_find_nothing_witness :
  ∃ r,
    search Examples.one_book "books" "dune" None None None 20 0 = Ok r
    ∧ total r = 0%nat
    ∧ hits r = [].
Proof.
  apply (terms_in_every_document_find_nothing Examples.one_book "books"
           (with_stats 1 2 Examples.books_index)).
  - vm_compute. reflexivity.
  - simpl. lia.
  - intros term Hterm.
    assert (Hdune : term = "dune").
    { assert (Htok : _tokenize "dune" = ["dune"]) by (vm_compute; reflexivity).
      rewrite Htok in Hterm. by apply list_elem_of_singleton in Hterm. }
    subst term. vm_compute. discriminate.
Defined.

(** ** Pages *)

Lemma py_slice_length {A} (l : list A) start stop :
  (0 ≤ start ≤ stop)%Z →
  length (py_slice l start stop)
  = Z.to_nat (Z.min (stop - start) (Z.of_nat (length l) - start)).
Proof.
  intros Hle. rewrite py_slice_ordered by done.
  rewrite length_take, length_drop. lia.
Qed.

Lemma py_slice_app {A} (l : list A) start mid stop :
  (0 ≤ start ≤ mid)%Z → (mid ≤ stop)%Z →
  (py_slice l start mid ++ py_slice l mid stop)%list = py_slice l start stop.
Proof.
  intros Hsm Hms. rewrite !py_slice_ordered by lia.
  set (n := Z.of_nat (length l)).
  set (a := Z.to_nat (Z.min start n)).
  set (m := Z.to_nat (Z.min mid n)).
  set (z := Z.to_nat (Z.min stop n)).
  replace (drop m l) with (drop (m - a) (drop a l))
    by (rewrite drop_drop; f_equal; lia).
  rewrite take_take_drop. f_equal. lia.
Qed.

(** X15: with an offset and a limit that are not negative, a search
    returns [limit] hits, or the [total - offset] that are left when those
    are fewer, and none when the offset is beyond [total]. *)
Theorem search_page_length self index_uid index query filters facets sort
    limit offset :
  indexes self !! index_uid = Some index →
  (0 ≤ total_documents index)%Z →
  (0 ≤ offset)%Z →
  (0 ≤ limit)%Z →
  ∃ r,
    search self index_uid query filters facets sort limit offset = Ok r
    ∧ length (hits r)
      = Z.to_nat (Z.min limit (Z.of_nat (total r) - offset)).
Proof.
  intros Hidx Hnonneg Hoffset Hlimit.
  set (sc := bm25_sum (db self) index_uid index (_tokenize query)).
  assert (Hsc : ∀ doc_id doc,
             _bm25_score self index_uid (_tokenize query) doc_id doc
             = Ok (sc doc)) by (intros; by apply _bm25_score_sum).
  eexists. split; [by apply (search_result _ _ index _ _ _ _ _ _ sc) |].
  simpl. rewrite length_fmap, py_slice_length by lia.
  rewrite sorted_by_score_length, length_fmap. f_equal. lia.
Qed.

Lemma search_page_length_witness :
  ∃ r,
    search Examples.three_books "books" "dune" None None None 1 0 = Ok r
    ∧ length (hits r) = Z.to_nat (Z.min 1 (Z.of_nat (total r) - 0)).
Proof.
  apply (search_page_length Examples.three_books "books"
           (with_stats 3 2 Examples.books_index)).
  - vm_compute. reflexivity.
  - simpl. lia.
  - lia.
  - lia.
Defined.

(** X16: consecutive pages add up: for an offset and two limits that are
    not negative, the hits of the page at [offset] of [limit1] results
    followed by those of the page at [offset + limit1] of [limit2]
    results are the hits of the page at [offset] of [limit1 + limit2]
    results, and the three searches report the same [total]. *)
Theorem search_pages_concatenate self index_uid index query filters facets
    sort offset limit1 limit2 :
  indexes self !! index_uid = Some index →
  (0 ≤ total_documents index)%Z →
  (0 ≤ offset)%Z →
  (0 ≤ limit1)%Z →
  (0 ≤ limit2)%Z →
  ∃ r1 r2 r,
    search self index_uid query filters facets sort limit1 offset = Ok r1
    ∧ search self index_uid query filters facets sort limit2
             (offset + limit1) = Ok r2
    ∧ search self index_uid query filters facets sort (limit1 + limit2)
             offset = Ok r
    ∧ (hits r1 ++ hits r2)%list = hits r
    ∧ total r1 = total r
    ∧ total r2 = total r.
Proof.
  intros Hidx Hnonneg Hoffset Hlimit1 Hlimit2.
  set (sc := bm25_sum (db self) index_uid index (_tokenize query)).
  assert (Hsc : ∀ doc_id doc,
             _bm25_score self index_uid (_tokenize query) doc_id doc
             = Ok (sc doc)) by (intros; by apply _bm25_score_sum).
  eexists _, _, _.
  split; [by apply (search_result _ _ index _ _ _ _ _ _ sc) |].
  split; [by apply (search_result _ _ index _ _ _ _ _ _ sc) |].
  split; [by apply (search_result _ _ index _ _ _ _ _ _ sc) |].
  simpl. split; [| done].
  rewrite <- fmap_app. f_equal.
  rewrite <- (py_slice_app _ offset (offset + limit1)
                           (offset + (limit1 + limit2))) by lia.
  do 2 f_equal. lia.
Qed.

Lemma search_pages_concatenate_witness :
  ∃ r1 r2 r,
    search Examples.three_books "books" "dune" None None None 1 0 = Ok r1
    ∧ search Examples.three_books "books" "dune" None None None 1 (0 + 1)
      = Ok r2
    ∧ search Examples.three_books "books" "dune" None None None (1 + 1) 0
      = Ok r
    ∧ (hits r1 ++ hits r2)%list = hits r
    ∧ total r1 = total r
    ∧ total r2 = total r.
Proof.
  apply (search_pages_concatenate Examples.three_books "books"
           (with_stats 3 2 Examples.books_index)).
  - vm_compute. reflexivity.
  - simpl. lia.
  - lia.
  - lia.
  - lia.
Defined.

(** ** Federated search *)

Lemma multi_search_Forall2 self queries results :
  multi_search self queries = Ok results
  ↔ Forall2 (λ q r, run_query self q = Ok r) queries results.
Proof.
  revert results. induction queries as [|q rest IH]; intros results.
  - simpl. split.
    + intros [= <-]. constructor.
    + intros ->%Forall2_nil_inv_l. done.
  - simpl. destruct (run_query self q) as [r|e] eqn:Hq; simpl.
    + destruct (multi_search self rest) as [rs|e] eqn:Hrest; simpl.
      * split.
        -- intros [= <-]. constructor; [done | by apply IH].
        -- intros (r' & rs' & Hr & Hrs & ->)%Forall2_cons_inv_l.
           apply IH in Hrs. congruence.
      * split; [done |].
        intros (r' & rs' & _ & Hrs & _)%Forall2_cons_inv_l.
        by apply IH in Hrs.
    + split; [done |].
      intros (r' & rs' & Hr & _)%Forall2_cons_inv_l. congruence.
Qed.

Lemma multi_search_first_failure self before q after e :
  Forall (λ q, ∃ r, run_query self q = Ok r) before →
  run_query self q = Raise e →
  multi_search self (before ++ q :: after) = Raise e.
Proof.
  intros Hbefore Hq. induction Hbefore as [|q0 rest [r Hr] _ IH]; simpl.
  - by rewrite Hq.
  - by rewrite Hr, IH.
Qed.

(** X17: [multi_search] returns one result per query, in the order of
    the queries, each being the result of that query run on its own; when
    a query raises, the call raises the exception of the first such query
    and returns no result at all; a query object without [index_uid]
    raises the not-found [ValueError] for [None]. *)
Theorem multi_search_runs_each_query self :
  (∀ queries results,
     multi_search self queries = Ok results
     ↔ Forall2 (λ q r, run_query self q = Ok r) queries results)
  ∧ (∀ before q after e,
       Forall (λ q, ∃ r, run_query self q = Ok r) before →
       run_query self q = Raise e →
       multi_search self (before ++ q :: after) = Raise e)
  ∧ (∀ q, q_index_uid q = None →
          run_query self q = Raise (ValueError "Index None not found")).
Proof.
  split; [apply multi_search_Forall2 |].
  split; [apply multi_search_first_failure |].
  intros q Hq. unfold run_query. by rewrite Hq.
Qed.

Lemma multi_search_runs_each_query_witness :
  multi_search Examples.three_books
    [mkQuery (Some "books") None None None None None None;
     mkQuery None (Some "dune") None None None None None;
     mkQuery (Some "books") (Some "dune") None None None None None]
  = Raise (ValueError "Index None not found").
Proof.
  destruct (multi_search_runs_each_query Examples.three_books)
    as (_ & Hfail & Hnone).
  apply (Hfail [mkQuery (Some "books") None None None None None None]).
  - constructor; [| constructor].
    destruct (search_scored Examples.three_books "books"
                (with_stats 3 2 Examples.books_index) "" None None None
                20 0 (λ _, 0%R)) as (hits & Hsearch & _).
    + vm_compute. reflexivity.
    + intros. reflexivity.
    + eexists. exact Hsearch.
  - by apply Hnone.
Defined.

Lemma search_no_terms_result self index_uid index query filters facets sort
    limit offset :
  indexes self !! index_uid = Some index →
  _tokenize query = [] →
  search self index_uid query filters facets sort limit offset
  = Ok (mkSearchResult index_uid query [] 0
          match default [] facets with
          | [] => []
          | _ => _compute_facets (select_documents (db self) index_uid)
                                 (default [] facets)
          end).
Proof.
  intros Hidx Hterms.
  rewrite (search_result _ _ index _ _ _ _ _ _ (λ _, 0%R)); [| done |].
  - unfold survivors.
    rewrite (filter_none (λ kv : string * document, (0 < 0)%R))
      by (intros _; lra).
    rewrite filter_nil. simpl. by rewrite py_slice_nil.
  - intros. by rewrite Hterms.
Qed.

(** X18: a query object of [multi_search] that names a registered index
    and has no [query] key searches for the empty string: it raises
    nothing and gets a result with [total = 0], no hit and an empty facet
    distribution when it asks for no facet. *)
Theorem query_without_text_finds_nothing self q index_uid :
  q_index_uid q = Some index_uid →
  q_query q = None →
  is_Some (indexes self !! index_uid) →
  ∃ r,
    run_query self q = Ok r
    ∧ query r = ""
    ∧ total r = 0%nat
    ∧ hits r = []
    ∧ (q_facets q = None → facet_distribution r = []).
Proof.
  intros Huid Hquery [index Hidx]. unfold run_query. rewrite Huid, Hquery.
  eexists. split; [by apply (search_no_terms_result _ _ index) |].
  simpl. repeat split. by intros ->.
Qed.

Lemma query_without_text_finds_nothing_witness :
  ∃ r,
    run_query Examples.three_books
              (mkQuery (Some "books") None None None None None None) = Ok r
    ∧ query r = ""
    ∧ total r = 0%nat
    ∧ hits r = []
    ∧ (@None (list string) = None → facet_distribution r = []).
Proof.
  apply (query_without_text_finds_nothing Examples.three_books
           (mkQuery (Some "books") None None None None None None) "books").
  - reflexivity.
  - reflexivity.
  - vm_compute. eauto.
Defined.

(** ** Statistics *)

Lemma sum_Z_perm (l1 l2 : list Z) :
  l1 ≡ₚ l2 → foldr Z.add 0%Z l1 = foldr Z.add 0%Z l2.
Proof. induction 1; simpl; lia. Qed.

Lemma sum_total_documents_insert (registry : gmap string Index) uid
    index index' :
  registry !! uid = Some index →
  sum_total_documents (<[uid := index']> registry)
  = (sum_total_documents registry - total_documents index
     + total_documents index')%Z.
Proof.
  intros Hidx. unfold sum_total_documents.
  rewrite <- (insert_delete_id registry uid index) at 2 by done.
  rewrite <- (insert_delete_eq registry uid index').
  rewrite !(sum_Z_perm _ _ (fmap_Permutation _ _ _
              (map_to_list_insert _ _ _ (lookup_delete_eq registry uid)))).
  simpl. lia.
Qed.

Lemma json_dumps_length doc : (0 < String.length (json_dumps doc))%nat.
Proof. unfold json_dumps. simpl. lia. Qed.

Lemma documents_size_select conn index_uid :
  documents_size conn index_uid
  = sum_list ((λ kv : string * document, String.length (json_dumps kv.2))
              <$> select_documents conn index_uid).
Proof.
  unfold documents_size. rewrite select_documents_perm.
  by rewrite <- list_fmap_compose.
Qed.

Lemma documents_size_zero conn index_uid :
  documents_size conn index_uid = 0%nat
  ↔ select_documents conn index_uid = [].
Proof.
  rewrite documents_size_select.
  destruct (select_documents conn index_uid) as [|row rows].
  - done.
  - rewrite !fmap_cons. simpl.
    pose proof (json_dumps_length row.2). split; [lia | done].
Qed.

(** *** The length of the JSON text of a document *)

Lemma string_length_app (a b : string) :
  String.length (a ++ b)%string = String.length a + String.length b.
Proof.
  induction a as [|c a IH]; [done |].
  change (String c a ++ b)%string with (String c (a ++ b)%string).
  simpl. by rewrite IH.
Qed.

Lemma json_escape_char_length c :
  String.length (json_escape_char c) = json_char_length c.
Proof. destruct c as [[] [] [] [] [] [] [] []]; reflexivity. Qed.

Lemma json_string_length_ok s :
  String.length (json_string s) = json_string_length s.
Proof.
  unfold json_string, json_string_length. simpl. rewrite string_length_app.
  simpl. induction s as [|c s IH]; [done |].
  simpl. rewrite string_length_app, json_escape_char_length. lia.
Qed.

Lemma join_length (l : list string) :
  String.length (join ", " l) = joined_length (String.length <$> l).
Proof.
  unfold joined_length. induction l as [|x [|y l] IH].
  - done.
  - simpl. lia.
  - change (join ", " (x :: y :: l))
      with (x ++ ", " ++ join ", " (y :: l))%string.
    rewrite !string_length_app, IH, !fmap_cons. simpl. lia.
Qed.

Lemma json_value_length_ok v :
  String.length (json_value v) = json_value_length v.
Proof.
  revert v. fix IH 1. intros [| [] | n | s | l]; try reflexivity.
  - apply json_string_length_ok.
  - simpl json_value. simpl json_value_length.
    rewrite !string_length_app, join_length. simpl.
    assert (Hl : String.length <$> map json_value l
                 = map json_value_length l).
    { induction l as [|x l IHl]; [done |].
      simpl. f_equal; [apply IH | apply IHl]. }
    rewrite Hl. lia.
Qed.

Lemma json_dumps_length_ok doc :
  String.length (json_dumps doc) = json_length doc.
Proof.
  unfold json_dumps, json_length. rewrite !string_length_app, join_length.
  change (String.length "{") with 1. change (String.length "}") with 1.
  assert (Hl : String.length <$>
                  map (λ kv : string * value,
                         json_string kv.1 ++ ": " ++ json_value kv.2)%string doc
                = (λ kv : string * value,
                     json_string_length kv.1 + 2 + json_value_length kv.2)
                  <$> doc).
  { induction doc as [|kv doc IH]; [done |].
    cbn [map]. rewrite !fmap_cons. f_equal; [| apply IH].
    rewrite !string_length_app, json_string_length_ok, json_value_length_ok.
    change (String.length ": ") with 2. lia. }
  rewrite Hl. lia.
Qed.

(** X19: [get_stats] without a uid, or with the empty uid, returns the
    number of registered indexes and the sum of their counters, even when
    an index with the empty uid is registered; with a uid that is not
    registered it raises the not-found [ValueError]; with a registered one
    it returns the counter [total_documents] of the index and, as
    [index_size_bytes], the sum of the lengths of the JSON texts of the
    documents stored under the uid, which is 0 exactly when the index
    stores no document; the length of the JSON text of a document is
    counted by [json_length]. *)
Theorem get_stats_by_uid self :
  get_stats self (Some "") = get_stats self None
  ∧ get_stats self None
    = Ok (EngineStats (size (indexes self))
                      (sum_total_documents (indexes self)))
  ∧ (∀ uid, uid ≠ "" → indexes self !! uid = None →
            get_stats self (Some uid) = Raise (not_found uid))
  ∧ (∀ uid index,
       uid ≠ "" → indexes self !! uid = Some index →
       ∃ size_bytes,
         get_stats self (Some uid)
         = Ok (IndexStats uid (total_documents index) size_bytes)
         ∧ size_bytes
           = sum_list ((λ kv : string * document, json_length kv.2)
                       <$> select_documents (db self) uid)
         ∧ (size_bytes = 0%nat ↔ stored_documents self uid = 0%nat))
  ∧ (∀ doc, String.length (json_dumps doc) = json_length doc).
Proof.
  unfold get_stats. split; [done |]. split; [done |].
  split; [| split; [| apply json_dumps_length_ok]].
  - intros uid Hne Hidx. by rewrite decide_False, Hidx.
  - intros uid index Hne Hidx. rewrite decide_False, Hidx by done.
    eexists. split; [done |]. split.
    + rewrite documents_size_select. f_equal. apply list_fmap_ext.
      intros _ kv _. apply json_dumps_length_ok.
    + unfold stored_documents. rewrite documents_size_zero. split.
      * by intros ->.
      * by intros ?%nil_length_inv.
Qed.

(** The three books take 34, 35 and 38 characters of JSON; the document
    [mixed] takes 73. *)
Lemma get_stats_by_uid_witness :
  get_stats Examples.three_books (Some "films") = Raise (not_found "films")
  ∧ get_stats Examples.three_books (Some "books")
    = Ok (IndexStats "books" 3 107)
  ∧ get_stats Examples.one_mixed (Some "books") = Ok (IndexStats "books" 1 73).
Proof.
  destruct (get_stats_by_uid Examples.three_books)
    as (_ & _ & Habsent & Hthree & _).
  destruct (get_stats_by_uid Examples.one_mixed) as (_ & _ & _ & Hmixed & _).
  split; [| split].
  - apply Habsent; [discriminate | vm_compute; reflexivity].
  - destruct (Hthree "books" (with_stats 3 2 Examples.books_index))
      as (size_bytes & -> & -> & _);
      [discriminate | vm_compute; reflexivity |].
    vm_compute. reflexivity.
  - destruct (Hmixed "books" (with_stats 1 2 Examples.books_index))
      as (size_bytes & -> & -> & _);
      [discriminate | vm_compute; reflexivity |].
    vm_compute. reflexivity.
Defined.

(** X20: a successful [add_documents] leaves the number of indexes that
    [get_stats] reports as it was and raises the reported sum of the
    counters by the size of the batch. *)
Theorem get_stats_after_add_documents self now index_uid index documents :
  indexes self !! index_uid = Some index →
  Forall (λ doc, ¬ invalid_document (primary_key index) doc) documents →
  ∃ self' count total,
    add_documents self now index_uid documents = (self', Ok ())
    ∧ get_stats self None = Ok (EngineStats count total)
    ∧ get_stats self' None
      = Ok (EngineStats count (total + Z.of_nat (length documents))).
Proof.
  intros Hidx Hvalid.
  destruct (add_each_valid index_uid (primary_key index) documents (db self)
              Hvalid) as [conn' Heach].
  eexists _, _, _. split; [by apply add_documents_Ok |].
  split; [done |]. unfold get_stats. simpl.
  rewrite map_size_insert_Some by eauto.
  rewrite (sum_total_documents_insert _ _ index) by done. simpl.
  do 2 f_equal. lia.
Qed.

Lemma get_stats_after_add_documents_witness :
  ∃ self' count total,
    add_documents Examples.one_book 3 "books"
                  [Examples.dune_world; Examples.dune_sequel] = (self', Ok ())
    ∧ get_stats Examples.one_book None = Ok (EngineStats count total)
    ∧ get_stats self' None
      = Ok (EngineStats count
              (total + Z.of_nat
                         (length [Examples.dune_world; Examples.dune_sequel]))).
Proof.
  apply (get_stats_after_add_documents Examples.one_book 3 "books"
           (with_stats 1 2 Examples.books_index)).
  - vm_compute. reflexivity.
  - repeat constructor; vm_compute; discriminate.
Defined.

(** ** The tokenizer *)

Lemma string_app_cons c (a b : string) :
  (String c a ++ b)%string = String c (a ++ b)%string.
Proof. reflexivity. Qed.

Lemma string_app_nil_r (s : string) : (s ++ "")%string = s.
Proof.
  induction s as [|c s IH]; [done |]. by rewrite string_app_cons, IH.
Qed.

Lemma string_app_assoc (a b c : string) :
  ((a ++ b) ++ c)%string = (a ++ (b ++ c))%string.
Proof.
  induction a as [|x a IH]; [done |]. by rewrite !string_app_cons, IH.
Qed.

Lemma lower_char_not_upper c : is_upper (lower_char c) = false.
Proof. destruct c as [[] [] [] [] [] [] [] []]; reflexivity. Qed.

Lemma lower_char_word c : is_word_char (lower_char c) = is_word_char c.
Proof. destruct c as [[] [] [] [] [] [] [] []]; reflexivity. Qed.

Lemma lower_app (a b : string) :
  lower (a ++ b)%string = (lower a ++ lower b)%string.
Proof.
  induction a as [|c a IH]; [done |].
  rewrite string_app_cons. simpl. by rewrite string_app_cons, IH.
Qed.

Lemma all_chars_app p (a b : string) :
  all_chars p (a ++ b)%string = all_chars p a && all_chars p b.
Proof.
  induction a as [|c a IH]; [done |].
  rewrite string_app_cons. simpl. by rewrite IH, andb_assoc.
Qed.

Lemma lower_not_upper (s : string) :
  all_chars (λ c, negb (is_upper c)) (lower s) = true.
Proof.
  induction s as [|c s IH]; simpl; [done |].
  by rewrite lower_char_not_upper, IH.
Qed.

Lemma lower_fixed (s : string) :
  all_chars (λ c, negb (is_upper c)) s = true → lower s = s.
Proof.
  induction s as [|c s IH]; simpl; [done |].
  intros [Hc Hs]%andb_true_iff. rewrite IH by done.
  unfold lower_char. by destruct (is_upper c).
Qed.

Lemma findall_words_tokens (cur s : string) :
  all_chars is_word_char cur = true →
  all_chars (λ c, negb (is_upper c)) cur = true →
  all_chars (λ c, negb (is_upper c)) s = true →
  Forall (λ t, all_chars is_word_char t = true
               ∧ all_chars (λ c, negb (is_upper c)) t = true)
         (findall_words cur s).
Proof.
  revert cur. induction s as [|c s IH]; intros cur Hword Hlow Hs; simpl.
  - unfold flush. case_decide; by repeat constructor.
  - simpl in Hs. apply andb_true_iff in Hs as [Hc Hs].
    destruct (is_word_char c) eqn:Hw.
    + apply IH; [| | done]; rewrite all_chars_app; simpl.
      * by rewrite Hword, Hw.
      * by rewrite Hlow, Hc.
    + apply Forall_app. split; [| by apply IH].
      unfold flush. case_decide; by repeat constructor.
Qed.

Lemma findall_words_all_word (cur s : string) :
  all_chars is_word_char s = true →
  findall_words cur s = flush (cur ++ s)%string.
Proof.
  revert cur. induction s as [|c s IH]; intros cur Hs; simpl.
  - by rewrite string_app_nil_r.
  - simpl in Hs. apply andb_true_iff in Hs as [-> Hs].
    rewrite IH by done. by rewrite string_app_assoc.
Qed.

Lemma findall_words_separator (cur a b : string) c :
  is_word_char c = false →
  findall_words cur (a ++ String c b)%string
  = (findall_words cur a ++ findall_words "" b)%list.
Proof.
  intros Hc. revert cur. induction a as [|x a IH]; intros cur; simpl.
  - by rewrite Hc.
  - destruct (is_word_char x); [apply IH |].
    by rewrite IH, app_assoc.
Qed.

Lemma _tokenize_tokens text :
  Forall (λ t, all_chars is_word_char t = true
               ∧ all_chars (λ c, negb (is_upper c)) t = true
               ∧ (2 < String.length t)%nat
               ∧ (t ∉ stopwords))
         (_tokenize text).
Proof.
  unfold _tokenize. apply list.Forall_forall.
  intros t [[Hstop Hlen] Hin]%list_elem_of_filter.
  pose proof (findall_words_tokens "" (lower text) eq_refl eq_refl
                (lower_not_upper text)) as Hall.
  rewrite list.Forall_forall in Hall. destruct (Hall t Hin). done.
Qed.

(** X21: on ASCII text, every token of [_tokenize] is made of letters,
    digits and underscores, has no upper-case letter, is longer than two
    characters and is not a stopword; and tokenizing a token gives that
    token alone, so a term of a document is found by the query that
    spells it. *)
Theorem tokens_are_normal_terms text t :
  all_chars is_ascii text = true →
  t ∈ _tokenize text →
  all_chars is_word_char t = true
  ∧ all_chars (λ c, negb (is_upper c)) t = true
  ∧ (2 < String.length t)%nat
  ∧ (t ∉ stopwords)
  ∧ _tokenize t = [t].
Proof.
  intros _ Hin. pose proof (_tokenize_tokens text) as Hall.
  rewrite list.Forall_forall in Hall.
  destruct (Hall t Hin) as (Hword & Hlow & Hlen & Hstop).
  repeat split; try done.
  unfold _tokenize. rewrite lower_fixed by done.
  rewrite findall_words_all_word by done.
  change ("" ++ t)%string with t. unfold flush.
  rewrite decide_False by (intros ->; simpl in Hlen; lia).
  by rewrite filter_cons_True.
Qed.

Lemma tokens_are_normal_terms_witness :
  (2 < String.length "dune_2")%nat ∧ _tokenize "dune_2" = ["dune_2"].
Proof.
  destruct (tokens_are_normal_terms "The DUNE_2 saga" "dune_2")
    as (_ & _ & Hlen & _ & Htok).
  - vm_compute. reflexivity.
  - vm_compute. left.
  - split; [exact Hlen | exact Htok].
Defined.

(** X22: on ASCII text, a character that is not a letter, a digit or an
    underscore separates tokens: the tokens of two texts joined by such a
    character are the tokens of the first followed by those of the
    second. *)
Theorem tokenize_splits_at_separator (text1 text2 : string) (sep : ascii) :
  all_chars is_ascii text1 = true →
  all_chars is_ascii text2 = true →
  is_ascii sep = true →
  is_word_char sep = false →
  _tokenize (text1 ++ String sep text2)%string
  = (_tokenize text1 ++ _tokenize text2)%list.
Proof.
  intros _ _ _ Hsep. unfold _tokenize. rewrite lower_app. simpl.
  rewrite findall_words_separator by (by rewrite lower_char_word).
  apply filter_app.
Qed.

Lemma tokenize_splits_at_separator_witness :
  _tokenize ("dune world" ++ String "," "the sequel")%string
  = (_tokenize "dune world" ++ _tokenize "the sequel")%list.
Proof.
  apply (tokenize_splits_at_separator "dune world" "the sequel" ",");
    vm_compute; reflexivity.
Defined.

(** ** More on facets *)

Lemma count_facet_get facet key facet_values doc :
  get key (count_facet facet facet_values doc)
  = if decide (py_str <$> get facet doc = Some key)
    then Some (default 0 (get key facet_values) + 1)%nat
    else get key facet_values.
Proof.
  unfold count_facet. destruct (get facet doc) as [v|].
  - case_decide as Hk.
    + injection Hk as <-. apply get_set_eq.
    + apply get_set_ne. simpl in Hk. congruence.
  - by rewrite decide_False.
Qed.

Lemma count_facets_get facet key docs :
  get key (fold_left (count_facet facet) docs [])
  = if decide (facet_value_count facet key docs = 0)%nat then None
    else Some (facet_value_count facet key docs).
Proof.
  unfold facet_value_count.
  induction docs as [|doc docs IH] using rev_ind; [done |].
  rewrite fold_left_app. simpl. rewrite count_facet_get, IH, filter_app.
  rewrite length_app.
  destruct (decide (py_str <$> get facet doc = Some key)) as [Hk|Hk].
  - rewrite filter_cons_True by done. simpl.
    rewrite (decide_False (P := (_ + 1 = 0)%nat)) by lia.
    case_decide as Hz; [rewrite Hz; done | done].
  - rewrite filter_cons_False by done. simpl. rewrite Nat.add_0_r. done.
Qed.

Lemma compute_facets_absent documents facets facet :
  facet ∉ facets → get facet (_compute_facets documents facets) = None.
Proof.
  intros Hnin. unfold _compute_facets.
  by rewrite compute_facets_other.
Qed.

(** X23: [_compute_facets] has an entry for exactly the requested
    fields; under a field, a key is present exactly when some document has
    a value of the field that stringifies to the key, and its count is the
    number of those documents; a requested field that no document has gets
    the empty dictionary. *)
Theorem facet_counts_by_value documents facets facet :
  (facet ∉ facets → get facet (_compute_facets documents facets) = None)
  ∧ (facet ∈ facets →
     ∃ counts,
       get facet (_compute_facets documents facets) = Some counts
       ∧ (∀ key,
            get key counts
            = if decide (facet_value_count facet key (values documents)
                         = 0)%nat
              then None
              else Some (facet_value_count facet key (values documents)))
       ∧ (Forall (λ doc, get facet doc = None) (values documents) →
          counts = [])).
Proof.
  split; [apply compute_facets_absent |].
  intros Hin. eexists. split; [by apply compute_facets_get |].
  split; [intros key; apply count_facets_get |].
  induction 1 as [|doc docs Hdoc _ IH]; [done |].
  simpl. unfold count_facet at 2. by rewrite Hdoc.
Qed.

Lemma facet_counts_by_value_witness :
  ∃ counts,
    get "genre"
        (_compute_facets
           [("1", [("id", VStr "1"); ("genre", VStr "scifi")]);
            ("2", [("id", VStr "2"); ("genre", VStr "scifi")]);
            ("3", [("id", VStr "3"); ("genre", VBool true)]);
            ("4", [("id", VStr "4")])]
           ["genre"]) = Some counts
    ∧ get "scifi" counts = Some 2%nat
    ∧ get "True" counts = Some 1%nat
    ∧ get "fantasy" counts = None.
Proof.
  destruct (facet_counts_by_value
              [("1", [("id", VStr "1"); ("genre", VStr "scifi")]);
               ("2", [("id", VStr "2"); ("genre", VStr "scifi")]);
               ("3", [("id", VStr "3"); ("genre", VBool true)]);
               ("4", [("id", VStr "4")])]
              ["genre"] "genre") as [_ Hin].
  destruct Hin as (counts & Hget & Hcount & _); [left |].
  exists counts. split; [exact Hget |].
  rewrite !Hcount. repeat split; vm_compute; reflexivity.
Defined.

(** ** The shape of the BM25 term *)

Lemma ratio_mono (x y c d : R) :
  (0 <= x <= y)%R → (0 < d <= c)%R → (x / (x + c) <= y / (y + d))%R.
Proof.
  intros [Hx Hxy] [Hd Hdc].
  apply (Rmult_le_reg_r ((x + c) * (y + d))); [nra |].
  replace (x / (x + c) * ((x + c) * (y + d)))%R with (x * (y + d))%R
    by (field; lra).
  replace (y / (y + d) * ((x + c) * (y + d)))%R with (y * (x + c))%R
    by (field; lra).
  nra.
Qed.

Lemma ratio_le_1 (y d : R) : (0 <= y)%R → (0 < d)%R → (y / (y + d) <= 1)%R.
Proof.
  intros Hy Hd. apply (Rmult_le_reg_r (y + d)); [lra |].
  replace (y / (y + d) * (y + d))%R with y by (field; lra). lra.
Qed.

Lemma contribution_formula pk term idf field v :
  field ≠ pk →
  contribution pk term idf (field, v)
  = (field_weight field * idf
     * ((k1 + 1)
        * (INR (count_term term (_tokenize (py_str v)))
           / (INR (count_term term (_tokenize (py_str v)))
              + k1 * (1 - b + b * INR (length (_tokenize (py_str v))))))))%R.
Proof.
  intros Hpk. unfold contribution. cbv zeta. simpl fst. simpl snd.
  destruct (decide (0 < count_term term (_tokenize (py_str v)))%nat)
    as [Htf|Htf].
  - rewrite decide_True by done. unfold Rdiv. f_equal. apply Rmult_assoc.
  - rewrite decide_False by tauto.
    replace (count_term term (_tokenize (py_str v))) with 0%nat by lia.
    simpl INR. unfold Rdiv. by rewrite !Rmult_0_l, !Rmult_0_r.
Qed.

(** X24: for a field other than the primary key and an [idf] that is not
    negative, what the field adds to the score grows with the number of
    occurrences of the term and shrinks with the number of tokens of the
    field; it is never negative and stays below
    [weight * idf * (k1 + 1)]. *)
Theorem bm25_term_is_monotone_and_bounded pk term idf score field v1 v2 :
  field ≠ pk →
  (0 <= idf)%R →
  (count_term term (_tokenize (py_str v1))
   ≤ count_term term (_tokenize (py_str v2)))%nat →
  (length (_tokenize (py_str v2)) ≤ length (_tokenize (py_str v1)))%nat →
  (score <= score_field pk term idf score (field, v1))%R
  ∧ (score_field pk term idf score (field, v1)
     <= score_field pk term idf score (field, v2))%R
  ∧ (score_field pk term idf score (field, v2)
     <= score + field_weight field * idf * (k1 + 1))%R.
Proof.
  intros Hpk Hidf Htf Hlen.
  rewrite !score_field_contribution, !contribution_formula by done.
  set (tf1 := INR (count_term term (_tokenize (py_str v1)))).
  set (tf2 := INR (count_term term (_tokenize (py_str v2)))).
  set (c1 := (k1 * (1 - b + b * INR (length (_tokenize (py_str v1)))))%R).
  set (c2 := (k1 * (1 - b + b * INR (length (_tokenize (py_str v2)))))%R).
  assert (Htf1 : (0 <= tf1)%R) by apply pos_INR.
  assert (Htf12 : (tf1 <= tf2)%R) by (by apply le_INR).
  assert (Hc2 : (0 < c2)%R).
  { unfold c2, k1, b.
    pose proof (pos_INR (length (_tokenize (py_str v2)))). nra. }
  assert (Hc21 : (c2 <= c1)%R).
  { unfold c1, c2, k1, b. apply le_INR in Hlen. nra. }
  pose proof (field_weight_pos field) as Hw.
  assert (Hw_idf : (0 <= field_weight field * idf)%R) by nra.
  assert (Hk : (0 < k1 + 1)%R) by (unfold k1; lra).
  assert (H0 : (0 <= tf1 / (tf1 + c1))%R).
  { apply Rmult_le_pos; [done |]. apply Rlt_le, Rinv_0_lt_compat. lra. }
  pose proof (ratio_mono tf1 tf2 c1 c2 (conj Htf1 Htf12) (conj Hc2 Hc21))
    as Hmono.
  pose proof (ratio_le_1 tf2 c2 ltac:(lra) Hc2) as Hone.
  set (r1 := (tf1 / (tf1 + c1))%R) in *.
  set (r2 := (tf2 / (tf2 + c2))%R) in *.
  assert (H1 : (0 <= (k1 + 1) * r1)%R) by nra.
  assert (H2 : ((k1 + 1) * r1 <= (k1 + 1) * r2)%R) by nra.
  assert (H3 : ((k1 + 1) * r2 <= k1 + 1)%R) by nra.
  repeat split; nra.
Qed.

Lemma bm25_term_is_monotone_and_bounded_witness :
  (0 <= score_field "id" "dune" 1 0 ("title", VStr "dune world"))%R
  ∧ (score_field "id" "dune" 1 0 ("title", VStr "dune world")
     <= score_field "id" "dune" 1 0 ("title", VStr "dune dune"))%R
  ∧ (score_field "id" "dune" 1 0 ("title", VStr "dune dune")
     <= 0 + field_weight "title" * 1 * (k1 + 1))%R.
Proof.
  apply (bm25_term_is_monotone_and_bounded "id" "dune" 1 0 "title"
           (VStr "dune world") (VStr "dune dune")).
  - discriminate.
  - lra.
  - vm_compute. lia.
  - vm_compute. lia.
Defined.

(** ** Filters, composed *)

Lemma _matches_filters_app doc filters1 filters2 :
  _matches_filters doc (filters1 ++ filters2)
  = _matches_filters doc filters1 && _matches_filters doc filters2.
Proof.
  induction filters1 as [|[field expected] rest IH]; [done |].
  simpl. destruct (get field doc) as [v|]; [| done].
  destruct expected; by destruct (negb _).
Qed.

(** X25: a document matches two sets of filter pairs put together
    exactly when it matches each of them; the empty filter matches every
    document, and a pair whose expected value is the empty list matches
    none. *)
Theorem filters_compose doc :
  (∀ filters1 filters2,
     _matches_filters doc (filters1 ++ filters2)
     = _matches_filters doc filters1 && _matches_filters doc filters2)
  ∧ _matches_filters doc [] = true
  ∧ (∀ field rest, _matches_filters doc ((field, VList []) :: rest) = false).
Proof.
  split; [apply _matches_filters_app |]. split; [done |].
  intros field rest. simpl. by destruct (get field doc).
Qed.

(** ** Setters, composed *)

Lemma set_attrs_twice f self index_uid attrs1 attrs2 :
  (∀ index, f attrs2 (f attrs1 index) = f attrs2 index) →
  set_attrs f (set_attrs f self index_uid attrs1).1 index_uid attrs2
  = set_attrs f self index_uid attrs2.
Proof.
  intros Hf. unfold set_attrs.
  destruct (indexes self !! index_uid) as [index|] eqn:Hidx; simpl.
  - rewrite lookup_insert_eq. unfold update_row. simpl.
    rewrite insert_insert_eq, Hf. do 3 f_equal.
    rewrite alter_alter_eq. apply alter_ext. intros i _. apply Hf.
  - by rewrite Hidx.
Qed.

(** X26: for each of the three setters the last call wins: setting a
    list and then another leaves the engine as setting the second alone
    does, so setting the same list twice is the same as setting it
    once. *)
Theorem setters_last_call_wins self index_uid attrs1 attrs2 :
  set_searchable_attrs (set_searchable_attrs self index_uid attrs1).1
                       index_uid attrs2
  = set_searchable_attrs self index_uid attrs2
  ∧ set_filterable_attrs (set_filterable_attrs self index_uid attrs1).1
                         index_uid attrs2
    = set_filterable_attrs self index_uid attrs2
  ∧ set_sortable_attrs (set_sortable_attrs self index_uid attrs1).1
                       index_uid attrs2
    = set_sortable_attrs self index_uid attrs2.
Proof. repeat split; by apply set_attrs_twice. Qed.

(** ** Postings of a document written for the first time *)

Lemma postings_of_elem conn index_uid doc_id term field :
  (term, field) ∈ postings_of conn index_uid doc_id
  ↔ is_Some (term_index conn !! (index_uid, term, doc_id, field)).
Proof.
  unfold postings_of. rewrite list_elem_of_fmap. split.
  - intros ([[[[u t] d] f] pos] & [= -> ->] & Hin).
    apply list_elem_of_filter in Hin as [[Hu Hd] Hin]. simpl in *. subst.
    apply elem_of_map_to_list in Hin. eauto.
  - intros [pos Hpos]. exists (index_uid, term, doc_id, field, pos).
    split; [done |]. apply list_elem_of_filter. split; [done |].
    by apply elem_of_map_to_list.
Qed.

Lemma postings_of_nil conn index_uid doc_id term field :
  postings_of conn index_uid doc_id = [] →
  term_index conn !! (index_uid, term, doc_id, field) = None.
Proof.
  intros Hnil.
  destruct (term_index conn !! (index_uid, term, doc_id, field)) eqn:Hk;
    [| done].
  assert (Hin : (term, field) ∈ postings_of conn index_uid doc_id)
    by (apply postings_of_elem; eauto).
  rewrite Hnil in Hin. by apply elem_of_nil in Hin.
Qed.

Lemma expected_postings_elem index_uid doc_id pk doc term field :
  (term, field) ∈ expected_postings pk doc
  ↔ ∃ fv, fv ∈ doc
          ∧ (index_uid, term, doc_id, field)
            ∈ field_keys index_uid doc_id pk fv.
Proof.
  unfold expected_postings. rewrite list_elem_of_In, in_flat_map.
  split.
  - intros (fv & Hfv%list_elem_of_In & Hin). exists fv. split; [done |].
    apply field_keys_elem. case_decide as Hpk; [by destruct Hin |].
    apply list_elem_of_In, list_elem_of_fmap in Hin as (t & [= -> ->] & Ht).
    split; [done |]. by exists t.
  - intros (fv & Hfv & (Hpk & t & Ht & [= -> ->])%field_keys_elem).
    exists fv. split; [by apply list_elem_of_In |].
    rewrite decide_False by done.
    apply list_elem_of_In, list_elem_of_fmap. by exists t.
Qed.

Lemma index_fields_origin index_uid doc_id pk doc conn k :
  is_Some (term_index (fold_left (index_field index_uid doc_id pk) doc conn)
           !! k) →
  is_Some (term_index conn !! k)
  ∨ ∃ fv, fv ∈ doc ∧ k ∈ field_keys index_uid doc_id pk fv.
Proof.
  revert conn. induction doc as [|fv doc IH]; intros conn Hk; [by left |].
  simpl fold_left in Hk. destruct (IH _ Hk) as [Hhere|(fv' & Hin & Hkey)].
  - rewrite index_field_lookup in Hhere. case_decide as Hkey.
    + right. exists fv. split; [left | done].
    + by left.
  - right. exists fv'. split; [by right | done].
Qed.

Lemma index_fields_present index_uid doc_id pk doc conn fv k :
  fv ∈ doc → k ∈ field_keys index_uid doc_id pk fv →
  is_Some (term_index (fold_left (index_field index_uid doc_id pk) doc conn)
           !! k).
Proof.
  revert conn. induction doc as [|fv0 doc IH]; intros conn Hin Hk.
  - by apply elem_of_nil in Hin.
  - simpl fold_left. apply elem_of_cons in Hin as [->|Hin]; [| by apply IH].
    apply index_fields_is_Some. rewrite index_field_lookup.
    rewrite decide_True by done. eauto.
Qed.

(** X27: when a valid document is added, alone in its batch, under an id
    that has no posting yet, the (term, field) pairs that have a posting
    for the document afterwards are exactly those of the tokenization of
    its fields other than the primary key. *)
Theorem first_write_postings_are_exact self now index_uid index doc
    term field :
  indexes self !! index_uid = Some index →
  ¬ invalid_document (primary_key index) doc →
  postings_of (db self) index_uid (doc_id_of (primary_key index) doc) = [] →
  let self' := (add_documents self now index_uid [doc]).1 in
  (term, field)
    ∈ postings_of (db self') index_uid (doc_id_of (primary_key index) doc)
  ↔ (term, field) ∈ expected_postings (primary_key index) doc.
Proof.
  intros Hidx Hvalid Hnone.
  destruct (add_each_valid index_uid (primary_key index) [doc] (db self))
    as [conn' Heach]; [by repeat constructor |].
  rewrite (add_documents_Ok _ _ _ index _ conn') by done. simpl.
  apply add_each_cons_Ok in Heach as (c & Hdoc & [= <-]).
  apply add_document_Ok in Hdoc as [_ ->].
  rewrite postings_of_elem.
  rewrite (expected_postings_elem index_uid
             (doc_id_of (primary_key index) doc)).
  simpl. split.
  - intros [Hold|Hnew]%index_fields_origin; [| done].
    simpl in Hold. rewrite (postings_of_nil _ _ _ _ _ Hnone) in Hold.
    by destruct Hold.
  - intros (fv & Hin & Hk). by eapply index_fields_present.
Qed.

Lemma first_write_postings_are_exact_witness :
  ("world", "title")
    ∈ postings_of (db (add_documents Examples.books 2 "books"
                         [Examples.dune_world]).1) "books" "1"
  ↔ ("world", "title") ∈ expected_postings "id" Examples.dune_world.
Proof.
  apply (first_write_postings_are_exact Examples.books 2 "books"
           Examples.books_index Examples.dune_world "world" "title").
  - vm_compute. reflexivity.
  - vm_compute. discriminate.
  - vm_compute. reflexivity.
Defined.

(** ** Adding and deleting a document *)

(** X28: adding a valid document under an id that has neither a document
    nor a posting, and then deleting that id, leaves the stored documents
    and the postings as they were before the two calls; the counter is
    back at its value when that was not negative. *)
Theorem add_then_delete_restores self now1 now2 index_uid index doc :
  indexes self !! index_uid = Some index →
  ¬ invalid_document (primary_key index) doc →
  let doc_id := doc_id_of (primary_key index) doc in
  index_documents (db self) !! (index_uid, doc_id) = None →
  postings_of (db self) index_uid doc_id = [] →
  let self' :=
    (delete_document (add_documents self now1 index_uid [doc]).1
                     now2 index_uid doc_id).1 in
  index_documents (db self') = index_documents (db self)
  ∧ term_index (db self') = term_index (db self)
  ∧ indexes self' !! index_uid
    = Some (with_stats (Z.max 0 (total_documents index)) now2 index).
Proof.
  intros Hidx Hvalid doc_id Hnodoc Hnone.
  destruct (add_each_valid index_uid (primary_key index) [doc] (db self))
    as [conn' Heach]; [by repeat constructor |].
  rewrite (add_documents_Ok _ _ _ index _ conn') by done.
  unfold delete_document. simpl. rewrite lookup_insert_eq. simpl.
  rewrite lookup_insert_eq.
  destruct (add_each_documents _ _ _ _ _ Heach) as (_ & Hsame & Hother).
  repeat split.
  - apply map_eq. intros [u d].
    destruct (decide ((u, d) = (index_uid, doc_id))) as [[= -> ->]|Hne].
    + by rewrite lookup_delete_eq, Hnodoc.
    + rewrite lookup_delete_ne by done.
      destruct (decide (u = index_uid)) as [->|Hu]; [| by apply Hother].
      rewrite Hsame, batch_last_singleton_ne; [done |].
      intros Hd. apply Hne. unfold doc_id. by rewrite Hd.
  - apply map_eq. intros [[[u t] d] f].
    destruct (decide (u = index_uid ∧ d = doc_id)) as [[-> ->]|Hne].
    + rewrite (postings_of_nil _ _ _ _ _ Hnone).
      apply map_lookup_filter_None. right. intros pos _. simpl. tauto.
    + assert (Hsame' : term_index conn' !! (u, t, d, f)
                       = term_index (db self) !! (u, t, d, f)).
      { eapply add_each_other; [done |].
        destruct (decide (u = index_uid)) as [->|Hu]; [right | by left].
        repeat constructor. intros Hd. apply Hne. done. }
      rewrite <- Hsame'.
      destruct (term_index conn' !! (u, t, d, f)) as [pos|] eqn:Hk.
      * apply map_lookup_filter_Some. split; [done |]. simpl. tauto.
      * apply map_lookup_filter_None. by left.
  - replace (total_documents index + Z.of_nat 1 - 1)%Z
      with (total_documents index) by lia.
    reflexivity.
Qed.

Lemma add_then_delete_restores_witness :
  let self' :=
    (delete_document (add_documents Examples.one_book 3 "books"
                                    [Examples.dune_sequel]).1
                     4 "books" "2").1 in
  index_documents (db self') = index_documents (db Examples.one_book)
  ∧ term_index (db self') = term_index (db Examples.one_book)
  ∧ indexes self' !! "books"
    = Some (with_stats (Z.max 0 1) 4 (with_stats 1 2 Examples.books_index)).
Proof.
  apply (add_then_delete_restores Examples.one_book 3 4 "books"
           (with_stats 1 2 Examples.books_index) Examples.dune_sequel).
  - vm_compute. reflexivity.
  - vm_compute. discriminate.
  - vm_compute. reflexivity.
  - vm_compute. reflexivity.
Defined.

(** ** Which documents are rejected *)

Lemma pretty_N_go_nonempty (x : N) (s : string) :
  s ≠ "" → pretty_N_go x s ≠ "".
Proof.
  revert s. induction (N.lt_wf_0 x) as [x _ IH]; intros s Hs.
  assert (x = 0 ∨ 0 < x)%N as [->|Hpos] by lia.
  - by rewrite pretty_N_go_0.
  - rewrite pretty_N_go_step by done. apply IH; [by apply N.div_lt | done].
Qed.

Lemma pretty_positive_nonempty (p : positive) : pretty p ≠ "".
Proof.
  unfold pretty, pretty_positive, pretty, pretty_N.
  rewrite decide_False by done.
  rewrite pretty_N_go_step by done. by apply pretty_N_go_nonempty.
Qed.

Lemma pretty_Z_nonempty (n : Z) : pretty n ≠ "".
Proof.
  destruct n as [|p|p]; [done | apply pretty_positive_nonempty | done].
Qed.

Lemma py_str_empty v : py_str v = "" ↔ v = VStr "".
Proof.
  split; [| by intros ->].
  destruct v as [|[]|n|s|l]; simpl; try done.
  - intros H. by destruct (pretty_Z_nonempty n).
  - by intros ->.
Qed.

(** X29: the only documents [add_documents] rejects are those without
    the primary-key field and those whose primary key is the empty
    string: any other value, such as [0], [False], [None] or the empty
    list, stringifies to a text that is not empty and is taken as the
    id. *)
Theorem rejected_documents pk doc :
  (invalid_document pk doc
   ↔ get pk doc = None ∨ get pk doc = Some (VStr ""))
  ∧ (∀ index_uid conn,
       get pk doc = None ∨ get pk doc = Some (VStr "") →
       add_document index_uid pk conn doc = Raise (missing_primary_key pk))
  ∧ (∀ index_uid conn v,
       get pk doc = Some v → v ≠ VStr "" →
       ∃ conn',
         add_document index_uid pk conn doc = Ok conn'
         ∧ index_documents conn' !! (index_uid, py_str v) = Some doc).
Proof.
  assert (Hiff : invalid_document pk doc
                 ↔ get pk doc = None ∨ get pk doc = Some (VStr "")).
  { unfold invalid_document. destruct (get pk doc) as [v|].
    - rewrite py_str_empty. split; [intros ->; by right |].
      by intros [|[= ->]].
    - split; [by left | done]. }
  split; [done |]. split.
  - intros index_uid conn Hbad. apply add_document_invalid. by apply Hiff.
  - intros index_uid conn v Hget Hv.
    destruct (add_document_valid index_uid pk conn doc) as [conn' Hadd].
    { rewrite Hiff, Hget. intros [|[= ->]]; done. }
    exists conn'. split; [done |].
    destruct (add_document_tables _ _ _ _ _ Hadd) as [_ ->].
    unfold doc_id_of. rewrite Hget. simpl. apply lookup_insert_eq.
Qed.

Lemma rejected_documents_witness :
  add_document "books" "id" empty_database [("title", VStr "dune")]
  = Raise (missing_primary_key "id")
  ∧ ∃ conn',
      add_document "books" "id" empty_database
                   [("id", VNone); ("title", VStr "dune")] = Ok conn'
      ∧ index_documents conn' !! ("books", "None")
        = Some [("id", VNone); ("title", VStr "dune")].
Proof.
  destruct (rejected_documents "id" [("title", VStr "dune")])
    as (_ & Hbad & _).
  destruct (rejected_documents "id" [("id", VNone); ("title", VStr "dune")])
    as (_ & _ & Hgood).
  split.
  - apply Hbad. left. reflexivity.
  - apply (Hgood "books" empty_database VNone); [reflexivity | discriminate].
Defined.

(** ** Search and the attribute lists *)

Lemma score_terms_agree self self' index_uid index index' doc terms score :
  term_index (db self) = term_index (db self') →
  indexes self !! index_uid = Some index →
  indexes self' !! index_uid = Some index' →
  primary_key index = primary_key index' →
  total_documents index = total_documents index' →
  score_terms self index_uid doc terms score
  = score_terms self' index_uid doc terms score.
Proof.
  intros Hterms Hidx Hidx' Hpk Htotal. revert score.
  induction terms as [|term rest IH]; intros score; [done |].
  simpl. unfold score_term, document_frequency.
  rewrite Hidx, Hidx', Hterms, Hpk, Htotal.
  destruct (math_log _) as [idf|e]; simpl; [apply IH | done].
Qed.

Lemma score_documents_agree self self' index_uid index index' terms
    documents scores :
  term_index (db self) = term_index (db self') →
  indexes self !! index_uid = Some index →
  indexes self' !! index_uid = Some index' →
  primary_key index = primary_key index' →
  total_documents index = total_documents index' →
  score_documents self index_uid terms documents scores
  = score_documents self' index_uid terms documents scores.
Proof.
  intros Hterms Hidx Hidx' Hpk Htotal. revert scores.
  induction documents as [|[doc_id doc] rest IH]; intros scores; [done |].
  simpl. unfold _bm25_score.
  rewrite (score_terms_agree self self' index_uid index index') by done.
  destruct (score_terms self' index_uid doc terms 0) as [score|e]; simpl;
    [apply IH | done].
Qed.

Lemma search_agree self self' index_uid index index' query filters facets
    sort limit offset :
  index_documents (db self) = index_documents (db self') →
  term_index (db self) = term_index (db self') →
  indexes self !! index_uid = Some index →
  indexes self' !! index_uid = Some index' →
  primary_key index = primary_key index' →
  total_documents index = total_documents index' →
  search self index_uid query filters facets sort limit offset
  = search self' index_uid query filters facets sort limit offset.
Proof.
  intros Hdocs Hterms Hidx Hidx' Hpk Htotal. unfold search, select_documents.
  rewrite Hidx, Hidx', Hdocs.
  by rewrite (score_documents_agree self self' index_uid index index').
Qed.

(** X30: the attribute lists are not consulted by [search]: after any of
    the three setters, on any index, every search returns what it
    returned before. *)
Theorem setters_do_not_change_search self uid attrs index_uid query filters
    facets sort limit offset :
  search (set_searchable_attrs self uid attrs).1 index_uid query filters
         facets sort limit offset
  = search self index_uid query filters facets sort limit offset
  ∧ search (set_filterable_attrs self uid attrs).1 index_uid query filters
           facets sort limit offset
    = search self index_uid query filters facets sort limit offset
  ∧ search (set_sortable_attrs self uid attrs).1 index_uid query filters
           facets sort limit offset
    = search self index_uid query filters facets sort limit offset.
Proof.
  assert (Hany : ∀ f,
            (∀ index, primary_key (f attrs index) = primary_key index
                      ∧ total_documents (f attrs index)
                        = total_documents index) →
            search (set_attrs f self uid attrs).1 index_uid query filters
                   facets sort limit offset
            = search self index_uid query filters facets sort limit offset).
  { intros f Hf. unfold set_attrs.
    destruct (indexes self !! uid) as [index|] eqn:Hidx; [| done]. simpl.
    destruct (decide (uid = index_uid)) as [->|Hne].
    - destruct (Hf index) as [Hpk Htotal].
      eapply search_agree; try done. simpl. apply lookup_insert_eq.
    - destruct (indexes self !! index_uid) as [index0|] eqn:Hidx0.
      + eapply (search_agree _ _ _ index0 index0); try done.
        simpl. by rewrite lookup_insert_ne.
      + unfold search. simpl. rewrite lookup_insert_ne by done.
        by rewrite Hidx0. }
  repeat split; by apply Hany.
Qed.
